(** * MoneyTracker: the Smart Categorization Engine

    A shallow embedding of [SmartCategorizationEngine]
    (smart-categorization.js) and the properties its specification states.

    Conventions of the embedding:
    - JavaScript strings are [string]s whose characters are the code units
      below 256; [\s], [trim], [toLowerCase] and the [i] flag are taken on
      that range.
    - JavaScript numbers are exact rationals [Q] (amounts, scores) or
      integers [Z] (ids, counters); no rounding is modelled.
    - The engine object is an explicit record threaded through the
      operations; the storage collaborator is a record of lists.
    - [new Date().toISOString()] is an argument [now] of the operations
      that read the clock. *)

From Stdlib Require Import Ascii String DecimalString DecimalPos DecimalZ.
From Stdlib Require Import Bool Arith ZArith QArith Qminmax Qabs Lia Lqa.
From Stdlib Require Import List Permutation.
Import ListNotations.

Close Scope Q_scope.
Open Scope nat_scope.

(** ** Characters and strings *)

Module Str.

Definition chars := list ascii.

Definition code (c : ascii) : nat := nat_of_ascii c.

(** [\s] below 256: TAB, LF, VT, FF, CR, SPACE and NO-BREAK SPACE. *)
Definition is_space (c : ascii) : bool :=
  let n := code c in ((9 <=? n) && (n <=? 13)) || (n =? 32) || (n =? 160).

(** [\d] *)
Definition is_digit (c : ascii) : bool :=
  let n := code c in (48 <=? n) && (n <=? 57).

(** [[A-Z]] *)
Definition is_upper (c : ascii) : bool :=
  let n := code c in (65 <=? n) && (n <=? 90).

(** [[A-Z0-9]] *)
Definition is_upper_or_digit (c : ascii) : bool := is_upper c || is_digit c.

(** The characters below 256 that have a lower-case form: [A-Z] and the
    accented capitals U+00C0 to U+00DE, the sign U+00D7 excepted. *)
Definition has_lower (c : ascii) : bool :=
  let n := code c in
  is_upper c || ((192 <=? n) && (n <=? 222) && negb (n =? 215)).

Definition lower_char (c : ascii) : ascii :=
  if has_lower c then ascii_of_nat (code c + 32) else c.

(** [String.prototype.toLowerCase] *)
Definition toLowerCase (s : chars) : chars := map lower_char s.

Fixpoint drop_spaces (s : chars) : chars :=
  match s with
  | c :: s' => if is_space c then drop_spaces s' else s
  | [] => []
  end.

(** [String.prototype.trim] *)
Definition trim (s : chars) : chars :=
  rev (drop_spaces (rev (drop_spaces s))).

Fixpoint eqb (a b : chars) : bool :=
  match a, b with
  | [], [] => true
  | x :: a', y :: b' => Ascii.eqb x y && eqb a' b'
  | _, _ => false
  end.

Fixpoint starts_with (p s : chars) : bool :=
  match p, s with
  | [], _ => true
  | x :: p', y :: s' => Ascii.eqb x y && starts_with p' s'
  | _ :: _, [] => false
  end.

(** [s.includes(p)]: [p] occurs in [s] as a contiguous substring. *)
Fixpoint includes (s p : chars) : bool :=
  starts_with p s ||
  match s with
  | [] => false
  | _ :: s' => includes s' p
  end.

(** [s.substring(0, n)] *)
Definition substring0 (n : nat) (s : chars) : chars := firstn n s.

(** Truthiness of a string: only the empty string is falsy. *)
Definition truthy (s : chars) : bool :=
  match s with [] => false | _ :: _ => true end.

End Str.

Definition chars : Type := Str.chars.

(** String literals of the source, as character lists. *)
Definition lit (s : string) : chars := list_ascii_of_string s.

(** ** Regular expressions

    The fragment of JavaScript regular expressions the engine uses, with
    the backtracking semantics of [RegExp.prototype.exec]: alternatives
    are tried left to right, quantifiers are greedy, and the leftmost
    position that allows a match wins. *)

Module Regex.

Inductive regex : Type :=
| Lit (ci : bool) (p : chars)
    (* literal text; [ci] is the [i] flag *)
| Class (f : ascii -> bool) (lo : nat) (hi : option nat)
    (* a character class repeated [{lo,hi}], greedy; [None] is unbounded *)
| Cat (r1 r2 : regex)
| Alt (r1 r2 : regex)
| Eoi.
    (* [$] without the [m] flag: end of input *)

Record regexp : Type := mkRegExp {
  anchored : bool;   (* the body starts with [^] *)
  global : bool;     (* the [g] flag *)
  body : regex
}.

Definition char_eq (ci : bool) (a c : ascii) : bool :=
  if ci then Ascii.eqb (Str.lower_char a) (Str.lower_char c)
  else Ascii.eqb a c.

Fixpoint match_lit (ci : bool) (p s : chars) : option chars :=
  match p, s with
  | [], _ => Some s
  | a :: p', c :: s' => if char_eq ci a c then match_lit ci p' s' else None
  | _ :: _, [] => None
  end.

Definition may_take (hi : option nat) : bool :=
  match hi with Some 0 => false | _ => true end.

Definition dec_hi (hi : option nat) : option nat :=
  match hi with Some n => Some (pred n) | None => None end.

(** Greedy repetition with backtracking: take one more character when
    that still leads to an overall match, otherwise stop here (allowed
    once the lower bound is met). *)
Fixpoint match_class (f : ascii -> bool) (lo : nat) (hi : option nat)
         (s : chars) (k : chars -> option chars) {struct s} : option chars :=
  let stop := if (lo =? 0)%nat then k s else None in
  match s with
  | c :: s' =>
      if f c && may_take hi then
        match match_class f (pred lo) (dec_hi hi) s' k with
        | Some r => Some r
        | None => stop
        end
      else stop
  | [] => stop
  end.

(** [match_re r s k]: match [r] at the start of [s], then continue with
    [k] on what is left; the result is the input left after the whole
    match. *)
Fixpoint match_re (r : regex) (s : chars) (k : chars -> option chars)
  : option chars :=
  match r with
  | Lit ci p =>
      match match_lit ci p s with
      | Some s' => k s'
      | None => None
      end
  | Class f lo hi => match_class f lo hi s k
  | Cat r1 r2 => match_re r1 s (fun s' => match_re r2 s' k)
  | Alt r1 r2 =>
      match match_re r1 s k with
      | Some x => Some x
      | None => match_re r2 s k
      end
  | Eoi => match s with [] => k s | _ :: _ => None end
  end.

Definition match_here (r : regex) (s : chars) : option chars :=
  match_re r s Some.

(** Leftmost match of an unanchored body: the text before the match and
    the text after it. *)
Fixpoint search (r : regex) (s : chars) : option (chars * chars) :=
  match match_here r s with
  | Some rest => Some ([], rest)
  | None =>
      match s with
      | [] => None
      | c :: s' =>
          match search r s' with
          | Some (before, after) => Some (c :: before, after)
          | None => None
          end
      end
  end.

(** [RegExp.prototype.exec] from index 0. *)
Definition exec (p : regexp) (s : chars) : option (chars * chars) :=
  if anchored p then
    match match_here (body p) s with
    | Some rest => Some ([], rest)
    | None => None
    end
  else search (body p) s.

(** [RegExp.prototype.test] *)
Definition test (p : regexp) (s : chars) : bool :=
  match exec p s with Some _ => true | None => false end.

(** The [g] loop of [replace], one position of the input at a time.
    [skip] counts the characters still covered by the last match, which
    are dropped.  Elsewhere a match is tried at the position: a match of
    [n > 0] characters is replaced and the scan resumes where it ended; an
    empty match is replaced and the scan steps over one character; without
    a match the character is kept. *)
Fixpoint replace_all (r : regex) (by_ : chars) (s : chars) (skip : nat)
         {struct s} : chars :=
  match skip with
  | S skip' =>
      match s with
      | [] => []
      | _ :: s' => replace_all r by_ s' skip'
      end
  | O =>
      match match_here r s with
      | Some rest =>
          let n := length s - length rest in
          match s with
          | [] => by_
          | c :: s' =>
              if (n =? 0)%nat then by_ ++ c :: replace_all r by_ s' 0
              else by_ ++ replace_all r by_ s' (n - 1)
          end
      | None =>
          match s with
          | [] => []
          | c :: s' => c :: replace_all r by_ s' 0
          end
      end
  end.

(** [String.prototype.replace(pattern, by_)]; none of the engine's
    patterns has both [^] and the [g] flag. *)
Definition replace (p : regexp) (by_ : chars) (s : chars) : chars :=
  if global p && negb (anchored p) then replace_all (body p) by_ s 0
  else
    match exec p s with
    | Some (before, after) => before ++ by_ ++ after
    | None => s
    end.

(** [s.split(pattern)[0]] for a pattern that matches no empty string:
    the text before the leftmost match, or all of [s]. *)
Definition split_first (p : regexp) (s : chars) : chars :=
  match exec p s with
  | Some (before, _) => before
  | None => s
  end.

Definition space_plus : regex := Class Str.is_space 1 None.
Definition space_star : regex := Class Str.is_space 0 None.
Definition digits (lo : nat) (hi : option nat) : regex :=
  Class Str.is_digit lo hi.
Definition text (s : string) : regex := Lit false (lit s).
Definition itext (s : string) : regex := Lit true (lit s).

Fixpoint cat (rs : list regex) : regex :=
  match rs with
  | [] => Lit false []
  | [r] => r
  | r :: rs' => Cat r (cat rs')
  end.

Fixpoint alt (rs : list regex) : regex :=
  match rs with
  | [] => Class (fun _ => false) 1 None
  | [r] => r
  | r :: rs' => Alt r (alt rs')
  end.

End Regex.

(** ** The engine *)

Import Regex.

Local Open Scope string_scope.

(** [cleanupPatterns] of [normalizeMerchant], in source order. *)
Definition state_codes : list string :=
  ["AL";"AK";"AZ";"AR";"CA";"CO";"CT";"DE";"FL";"GA";"HI";"ID";"IL";"IN";"IA";
   "KS";"KY";"LA";"ME";"MD";"MA";"MI";"MN";"MS";"MO";"MT";"NE";"NV";"NH";"NJ";
   "NM";"NY";"NC";"ND";"OH";"OK";"OR";"PA";"RI";"SC";"SD";"TN";"TX";"UT";"VT";
   "VA";"WA";"WV";"WI";"WY"].

Definition cleanupPatterns : list regexp :=
  [ (* /#\d+/g *)
    mkRegExp false true (cat [text "#"; digits 1 None]);
    (* /\s+\d{3,5}\s*$/ *)
    mkRegExp false false (cat [space_plus; digits 3 (Some 5); space_star; Eoi]);
    (* /\s+(AL|AK|...|WY)\s*$/i *)
    mkRegExp false false
      (cat [space_plus; alt (map itext state_codes); space_star; Eoi]);
    (* /^TST\*\s*/i *)
    mkRegExp true false (cat [itext "TST*"; space_star]);
    (* /^SQ\s*\*\s*/i *)
    mkRegExp true false (cat [itext "SQ"; space_star; text "*"; space_star]);
    (* /^AMZN\s+MKTP\s+US\*/i *)
    mkRegExp true false
      (cat [itext "AMZN"; space_plus; itext "MKTP"; space_plus; itext "US*"]);
    (* /^POS\s+/i *)
    mkRegExp true false (cat [itext "POS"; space_plus]);
    (* /^DEBIT\s+/i *)
    mkRegExp true false (cat [itext "DEBIT"; space_plus]);
    (* /^CREDIT\s+/i *)
    mkRegExp true false (cat [itext "CREDIT"; space_plus]);
    (* /\s+[A-Z0-9]{8,}\s*$/ *)
    mkRegExp false false
      (cat [space_plus; Class Str.is_upper_or_digit 8 None; space_star; Eoi]);
    (* /\s+\d{1,2}\/\d{1,2}\/\d{2,4}/g *)
    mkRegExp false true
      (cat [space_plus; digits 1 (Some 2); text "/"; digits 1 (Some 2);
            text "/"; digits 2 (Some 4)]);
    (* /\s+\d{1,2}-\d{1,2}-\d{2,4}/g *)
    mkRegExp false true
      (cat [space_plus; digits 1 (Some 2); text "-"; digits 1 (Some 2);
            text "-"; digits 2 (Some 4)]) ].

(** [merchantMappings] of [normalizeMerchant], in source order. *)
Definition merchantMappings : list (regexp * string) :=
  let contains r := mkRegExp false false r in
  [ (contains (itext "walmart"), "Walmart");
    (contains (itext "target"), "Target");
    (contains (itext "starbucks"), "Starbucks");
    (contains (itext "amazon"), "Amazon");
    (contains (itext "netflix"), "Netflix");
    (contains (itext "spotify"), "Spotify");
    (contains (itext "shell"), "Shell");
    (contains (itext "chevron"), "Chevron");
    (contains (itext "costco"), "Costco");
    (contains (itext "safeway"), "Safeway");
    (contains (itext "kroger"), "Kroger");
    (contains (cat [itext "whole"; space_star; itext "foods"]), "Whole Foods");
    (contains (cat [itext "trader"; space_star; itext "joe"]), "Trader Joes");
    (contains (cat [itext "home"; space_star; itext "depot"]), "Home Depot");
    (contains (itext "lowes"), "Lowes");
    (contains (cat [itext "best"; space_star; itext "buy"]), "Best Buy") ].

Local Close Scope string_scope.

(** The text after the [cleanupPatterns.forEach] loop. *)
Definition cleanup (description : string) : chars :=
  fold_left (fun normalized p => replace p [] normalized)
            cleanupPatterns (Str.trim (lit description)).

(** The first entry of [merchantMappings] whose pattern the text passes. *)
Definition mapped_name (normalized : chars) : option string :=
  match find (fun m => test (fst m) normalized) merchantMappings with
  | Some m => Some (snd m)
  | None => None
  end.

(** The tail of [normalizeMerchant], reached when no mapping applies. *)
Definition fallback_name (normalized : chars) : chars :=
  let normalized :=
    Str.trim (replace (mkRegExp false true space_plus) (lit " "%string)
                      normalized) in
  let normalized :=
    split_first (mkRegExp false false
                   (Alt (Class Str.is_space 2 None)
                        (Lit false [ascii_of_nat 9])))
                normalized in
  if (40 <? length normalized)%nat
  then Str.trim (Str.substring0 40 normalized)
  else normalized.

Definition normalizeMerchant (description : string) : string :=
  if negb (Str.truthy (lit description)) then ""%string
  else
    let normalized := cleanup description in
    match mapped_name normalized with
    | Some name => name
    | None => string_of_list_ascii (fallback_name normalized)
    end.

(** *** Similarity *)

Definition min3 (a b c : nat) : nat := Nat.min a (Nat.min b c).

(** The inner [for j] loop of [levenshteinDistance] on row [i]: [c2] is
    [str2.charAt(i - 1)], [diag] is [matrix[i-1][j-1]], [above] holds
    [matrix[i-1][j..]] and [left] is [matrix[i][j-1]]. *)
Fixpoint fill_row (c2 : ascii) (str1 : chars) (diag : nat) (above : list nat)
         (left : nat) : list nat :=
  match str1, above with
  | c1 :: str1', up :: above' =>
      let v := if Ascii.eqb c2 c1 then diag
               else min3 (diag + 1) (left + 1) (up + 1) in
      v :: fill_row c2 str1' up above' v
  | _, _ => []
  end.

(** Row [i] of the matrix from row [i - 1]; [matrix[i][0]] is [i]. *)
Definition next_row (str1 : chars) (prev : list nat) (i : nat) (c2 : ascii)
  : list nat :=
  match prev with
  | d0 :: above => i :: fill_row c2 str1 d0 above i
  | [] => [i]
  end.

(** The outer [for i] loop, from row [i - 1] to the last row. *)
Fixpoint last_row (str1 str2 : chars) (i : nat) (prev : list nat) : list nat :=
  match str2 with
  | [] => prev
  | c2 :: str2' => last_row str1 str2' (S i) (next_row str1 prev i c2)
  end.

(** [matrix[str2.length][str1.length]] *)
Definition levenshteinDistance (str1 str2 : chars) : nat :=
  last (last_row str1 str2 1 (seq 0 (S (length str1)))) 0.

Definition Qlt_bool (x y : Q) : bool := negb (Qle_bool y x).

Definition calculateSimilarity (str1 str2 : string) : Q :=
  if negb (Str.truthy (lit str1)) || negb (Str.truthy (lit str2)) then 0%Q
  else
    let s1 := Str.toLowerCase (lit str1) in
    let s2 := Str.toLowerCase (lit str2) in
    if Str.eqb s1 s2 then 100%Q
    else if Str.includes s1 s2 || Str.includes s2 s1 then 85%Q
    else
      let distance := levenshteinDistance s1 s2 in
      let maxLen := Nat.max (length s1) (length s2) in
      let similarity :=
        ((inject_Z (Z.of_nat maxLen - Z.of_nat distance)
          / inject_Z (Z.of_nat maxLen)) * 100)%Q in
      Qmax 0 similarity.

(** *** Records *)

(** A transaction's [date] field, ["YYYY-MM-DD"]. *)
Record Date : Type := mkDate { year : Z; month : Z; day : Z }.

(** [new Date(t.date).getDate()]: the day of the month (read in the
    calendar the date was written in). *)
Definition getDate (d : Date) : Z := day d.

(** Chronological order, the order of [a - b] on [Date] objects. *)
Definition date_leb (a b : Date) : bool :=
  ((year a <? year b) ||
   ((year a =? year b) &&
    ((month a <? month b) || ((month a =? month b) && (day a <=? day b)))))%Z.

(** The four suggestion fields are separate properties of the object, each
    present ([Some]) or deleted ([None]). *)
Record Transaction : Type := mkTransaction {
  id : Z;
  date : Date;
  description : string;
  amount : Q;
  categoryId : option Z;
  isSplit : bool;
  pendingReview : option bool;
  suggestionConfidence : option Q;
  suggestionReasoning : option string;
  suggestionPatternId : option Z
}.

Inductive Recurrence : Type := monthly.

(** A persisted pattern record. *)
Record Pattern : Type := mkPattern {
  p_id : Z;
  merchantName : string;
  p_categoryId : Z;
  matchCount : Z;
  acceptCount : Z;
  denyCount : Z;
  lastSeen : string;
  amountMin : option Q;
  amountMax : option Q;
  isRecurring : bool;
  recurrencePattern : option Recurrence
}.

(** The object literal [minePatterns] builds for a group: a pattern that
    has no [id] yet and whose amount range is always a pair of numbers. *)
Record MinedPattern : Type := mkMined {
  m_merchantName : string;
  m_categoryId : Z;
  m_matchCount : Z;
  m_acceptCount : Z;
  m_denyCount : Z;
  m_lastSeen : string;
  m_amountMin : Q;
  m_amountMax : Q;
  m_isRecurring : bool;
  m_recurrencePattern : option Recurrence
}.

(** Truthiness of the values the engine tests. *)
Definition truthy_string (s : string) : bool := Str.truthy (lit s).
Definition truthy_Z (z : Z) : bool := negb (z =? 0)%Z.
Definition truthy_Q (q : Q) : bool := negb (Qeq_bool q 0).
Definition truthy_opt {A : Type} (f : A -> bool) (o : option A) : bool :=
  match o with Some a => f a | None => false end.
Definition truthy_bool (b : bool) : bool := b.

(** *** Storage collaborator *)

(** Modelled from the spec: the pattern store of the storage object [db]
    ([getPatterns], [addPattern], [updatePattern]), which db.js does not
    define; it follows the stores db.js does define.  Records live in key
    order and the keys come from an auto-increment generator that starts
    at 1. *)
Record Store : Type := mkStore {
  stored_patterns : list Pattern;
  stored_transactions : list Transaction;
  next_pattern_id : Z
}.

(** Modelled from the spec: [getPatterns() -> list<Pattern>]. *)
Definition getPatterns (db : Store) : list Pattern := stored_patterns db.

(** The record stored for a mined pattern under key [i]. *)
Definition with_id (i : Z) (np : MinedPattern) : Pattern :=
  {| p_id := i;
     merchantName := m_merchantName np;
     p_categoryId := m_categoryId np;
     matchCount := m_matchCount np;
     acceptCount := m_acceptCount np;
     denyCount := m_denyCount np;
     lastSeen := m_lastSeen np;
     amountMin := Some (m_amountMin np);
     amountMax := Some (m_amountMax np);
     isRecurring := m_isRecurring np;
     recurrencePattern := m_recurrencePattern np |}.

(** Modelled from the spec: [addPattern(Pattern) -> id], an [add] as in
    [addCategory]: the record gets the next key, which is returned. *)
Definition addPattern (np : MinedPattern) (db : Store) : Z * Store :=
  let i := next_pattern_id db in
  (i, {| stored_patterns := (stored_patterns db ++ [with_id i np])%list;
         stored_transactions := stored_transactions db;
         next_pattern_id := (i + 1)%Z |}).

(** A record placed among records in key order. *)
Fixpoint insert_by_key {A : Type} (key : A -> Z) (x : A) (l : list A)
  : list A :=
  match l with
  | [] => [x]
  | y :: l' =>
      if (key x <? key y)%Z then x :: l else y :: insert_by_key key x l'
  end.

(** [IDBObjectStore.put]: overwrite the record stored under the same key,
    or add the record. *)
Definition put {A : Type} (key : A -> Z) (x : A) (l : list A) : list A :=
  if existsb (fun y => (key y =? key x)%Z) l
  then map (fun y => if (key y =? key x)%Z then x else y) l
  else insert_by_key key x l.

(** Modelled from the spec: [updatePattern(Pattern) -> void], a [put] as
    in [updateCategory]. *)
Definition updatePattern (p : Pattern) (db : Store) : Store :=
  {| stored_patterns := put p_id p (stored_patterns db);
     stored_transactions := stored_transactions db;
     next_pattern_id := next_pattern_id db |}.

(** [updateTransaction] of db.js: a [put]. *)
Definition updateTransaction (t : Transaction) (db : Store) : Store :=
  {| stored_patterns := stored_patterns db;
     stored_transactions := put id t (stored_transactions db);
     next_pattern_id := next_pattern_id db |}.

Definition empty_store : Store :=
  {| stored_patterns := []; stored_transactions := []; next_pattern_id := 1 |}.

(** The engine object: [this.db], [this.patterns],
    [this.confidenceThreshold]. *)
Record Engine : Type := mkEngine {
  db : Store;
  patterns : list Pattern;
  confidenceThreshold : Q
}.

(** [new SmartCategorizationEngine(db)] *)
Definition new_engine (db : Store) : Engine :=
  {| db := db; patterns := []; confidenceThreshold := 70 |}.

(** [init] *)
Definition init (e : Engine) : Engine :=
  {| db := db e; patterns := getPatterns (db e);
     confidenceThreshold := confidenceThreshold e |}.

(** [setConfidenceThreshold] *)
Definition setConfidenceThreshold (threshold : Q) (e : Engine) : Engine :=
  {| db := db e; patterns := patterns e;
     confidenceThreshold := Qmax 0 (Qmin 100 threshold) |}.

Definition getConfidenceThreshold (e : Engine) : Q := confidenceThreshold e.

(** *** Recurring detection *)

Record RecurrenceResult : Type := mkRecurrence {
  r_isRecurring : bool;
  r_pattern : option Recurrence
}.

Definition not_recurring : RecurrenceResult :=
  {| r_isRecurring := false; r_pattern := None |}.

(** The [filter] predicate of [detectRecurringPattern]. *)
Definition is_similar_to (transaction t : Transaction) : bool :=
  let amount_ := Qabs (amount transaction) in
  let merchantName_ := normalizeMerchant (description transaction) in
  let tAmount := Qabs (amount t) in
  let tMerchant := normalizeMerchant (description t) in
  let amountMatch := Qle_bool (Qabs (tAmount - amount_)) (amount_ * (1 # 10)) in
  let merchantMatch :=
    Qlt_bool 70 (calculateSimilarity merchantName_ tMerchant) in
  amountMatch && merchantMatch && negb (id t =? id transaction)%Z.

Definition similarTransactions (transaction : Transaction)
           (historicalTransactions : list Transaction) : list Transaction :=
  filter (is_similar_to transaction) historicalTransactions.

(** [Array.prototype.sort] is stable: an element goes after the elements
    that do not compare greater. *)
Fixpoint insert_sorted {A : Type} (leb : A -> A -> bool) (x : A) (l : list A)
  : list A :=
  match l with
  | [] => [x]
  | y :: l' => if leb y x then y :: insert_sorted leb x l' else x :: l
  end.

Definition sort {A : Type} (leb : A -> A -> bool) (l : list A) : list A :=
  fold_left (fun acc x => insert_sorted leb x acc) l [].

(** [dayOfMonth.reduce((sum, day) => sum + day, 0)] *)
Definition sum_days (dayOfMonth : list Z) : Z :=
  fold_left (fun sum day => (sum + day)%Z) dayOfMonth 0%Z.

(** [dayOfMonth.every(day => Math.abs(day - avgDay) <= 3)] *)
Definition dayVariance (dayOfMonth : list Z) : bool :=
  let avgDay :=
    (inject_Z (sum_days dayOfMonth)
     / inject_Z (Z.of_nat (length dayOfMonth)))%Q in
  forallb (fun day => Qle_bool (Qabs (inject_Z day - avgDay)) 3) dayOfMonth.

Definition detectRecurringPattern (transaction : Transaction)
           (historicalTransactions : list Transaction) : RecurrenceResult :=
  let similar := similarTransactions transaction historicalTransactions in
  if length similar <? 2 then not_recurring
  else
    let dates := sort date_leb (map date similar) in
    let dayOfMonth := map getDate dates in
    if dayVariance dayOfMonth && (2 <=? length similar)
    then {| r_isRecurring := true; r_pattern := Some monthly |}
    else not_recurring.

(** *** Pattern mining *)

(** A value of [patternMap]. *)
Record GroupData : Type := mkGroup {
  g_merchantName : string;
  g_categoryId : Z;
  transactions : list Transaction;
  amounts : list Q
}.

(** [patternMap]: a [Map] iterates in insertion order. *)
Definition PatternMap : Type := list (string * GroupData).

Definition map_has (key : string) (m : PatternMap) : bool :=
  existsb (fun kv => String.eqb (fst kv) key) m.

(** [Map.prototype.set] for a key the map does not hold yet. *)
Definition map_set (key : string) (data : GroupData) (m : PatternMap)
  : PatternMap := (m ++ [(key, data)])%list.

(** [Map.prototype.get] followed by in-place changes of the value. *)
Definition map_modify (key : string) (f : GroupData -> GroupData)
           (m : PatternMap) : PatternMap :=
  map (fun kv => if String.eqb (fst kv) key then (fst kv, f (snd kv))
                 else kv) m.

(** A number in a template literal (ids and counts are integers). *)
Definition number_to_string (z : Z) : string :=
  NilZero.string_of_int (Z.to_int z).

(** The [filter] predicate of [minePatterns]. *)
Definition is_categorized (t : Transaction) : bool :=
  truthy_opt truthy_Z (categoryId t) && negb (isSplit t)
  && negb (truthy_opt truthy_bool (pendingReview t)).

Definition push_transaction (transaction : Transaction) (data : GroupData)
  : GroupData :=
  {| g_merchantName := g_merchantName data;
     g_categoryId := g_categoryId data;
     transactions := (transactions data ++ [transaction])%list;
     amounts := (amounts data ++ [Qabs (amount transaction)])%list |}.

(** The body of [categorizedTransactions.forEach]. *)
Definition collect (patternMap : PatternMap) (transaction : Transaction)
  : PatternMap :=
  let merchantName := normalizeMerchant (description transaction) in
  if negb (truthy_string merchantName) then patternMap
  else
    match categoryId transaction with
    | None => patternMap  (* not reached: the filter keeps set categories *)
    | Some category =>
        let key := (merchantName ++ "|" ++ number_to_string category)%string in
        let patternMap :=
          if negb (map_has key patternMap)
          then map_set key {| g_merchantName := merchantName;
                              g_categoryId := category;
                              transactions := [];
                              amounts := [] |} patternMap
          else patternMap in
        map_modify key (push_transaction transaction) patternMap
    end.

(** [Math.min(...amounts)] and [Math.max(...amounts)] of a non-empty array. *)
Definition Math_min (a : Q) (rest : list Q) : Q := fold_left Qmin rest a.
Definition Math_max (a : Q) (rest : list Q) : Q := fold_left Qmax rest a.

(** The body of the loop over [patternMap.entries()].  A group always has
    a member (it is created when its first transaction is pushed), so the
    [None] case, where [data.transactions[0]] would be undefined, is not
    reached from [collect]. *)
Definition to_pattern (now : string) (data : GroupData) : option MinedPattern :=
  match sort Qle_bool (amounts data), transactions data with
  | a :: rest, first :: _ =>
      let recurrence := detectRecurringPattern first (transactions data) in
      Some {| m_merchantName := g_merchantName data;
              m_categoryId := g_categoryId data;
              m_matchCount := Z.of_nat (length (transactions data));
              m_acceptCount := Z.of_nat (length (transactions data));
              m_denyCount := 0;
              m_lastSeen := now;
              m_amountMin := Math_min a rest;
              m_amountMax := Math_max a rest;
              m_isRecurring := r_isRecurring recurrence;
              m_recurrencePattern := r_pattern recurrence |}
  | _, _ => None
  end.

Definition mine (now : string) (transactions : list Transaction)
  : list MinedPattern :=
  let categorizedTransactions := filter is_categorized transactions in
  let patternMap := fold_left collect categorizedTransactions [] in
  flat_map (fun kv => match to_pattern now (snd kv) with
                      | Some p => [p]
                      | None => []
                      end) patternMap.

(** The [find] predicate of [updatePatternsInDatabase]. *)
Definition same_pair (newPattern : MinedPattern) (p : Pattern) : bool :=
  String.eqb (merchantName p) (m_merchantName newPattern)
  && (p_categoryId p =? m_categoryId newPattern)%Z.

(** [Math.min(existing.amountMin || Infinity, newPattern.amountMin)]: the
    left operand is [Infinity] when the stored bound is absent or falsy,
    and then the minimum is the new bound. *)
Definition merged_min (old : option Q) (new : Q) : Q :=
  match old with
  | Some o => if truthy_Q o then Qmin o new else new
  | None => new
  end.

(** [Math.max(existing.amountMax || 0, newPattern.amountMax)] *)
Definition merged_max (old : option Q) (new : Q) : Q :=
  match old with
  | Some o => if truthy_Q o then Qmax o new else Qmax 0 new
  | None => Qmax 0 new
  end.

(** The assignments of the [if (existing)] branch. *)
Definition merge_existing (existing : Pattern) (newPattern : MinedPattern)
  : Pattern :=
  {| p_id := p_id existing;
     merchantName := merchantName existing;
     p_categoryId := p_categoryId existing;
     matchCount := m_matchCount newPattern;
     acceptCount := acceptCount existing;
     denyCount := denyCount existing;
     lastSeen := m_lastSeen newPattern;
     amountMin :=
       Some (merged_min (amountMin existing) (m_amountMin newPattern));
     amountMax :=
       Some (merged_max (amountMax existing) (m_amountMax newPattern));
     isRecurring := m_isRecurring newPattern;
     recurrencePattern := m_recurrencePattern newPattern |}.

(** An object found with [find] and changed in place: the first element
    that passes [f] is replaced. *)
Fixpoint replace_first {A : Type} (f : A -> bool) (g : A -> A) (l : list A)
  : list A :=
  match l with
  | [] => []
  | x :: l' => if f x then g x :: l' else x :: replace_first f g l'
  end.

(** The loop of [updatePatternsInDatabase]; [existingPatterns] is the list
    read once before the loop, whose objects the loop changes in place. *)
Fixpoint merge_loop (newPatterns : list MinedPattern)
         (existingPatterns : list Pattern) (db : Store) : Store :=
  match newPatterns with
  | [] => db
  | newPattern :: rest =>
      match find (same_pair newPattern) existingPatterns with
      | Some existing =>
          let existing' := merge_existing existing newPattern in
          merge_loop rest
            (replace_first (same_pair newPattern) (fun _ => existing')
                           existingPatterns)
            (updatePattern existing' db)
      | None =>
          merge_loop rest existingPatterns (snd (addPattern newPattern db))
      end
  end.

Definition updatePatternsInDatabase (newPatterns : list MinedPattern)
           (db : Store) : Store :=
  merge_loop newPatterns (getPatterns db) db.

(** [minePatterns]; [now] is [new Date().toISOString()]. *)
Definition minePatterns (now : string) (transactions : list Transaction)
           (e : Engine) : list MinedPattern * Engine :=
  let patterns := mine now transactions in
  let db' := updatePatternsInDatabase patterns (db e) in
  (patterns, {| db := db'; patterns := getPatterns db';
                confidenceThreshold := confidenceThreshold e |}).

(** *** Confidence *)

(** Factor 1: [Math.min(40, pattern.matchCount * 5)] *)
Definition matchScore (pattern : Pattern) : Q :=
  Qmin 40 (inject_Z (matchCount pattern) * 5).

(** Factor 2: [(similarityScore / 100) * 30] *)
Definition similarityFactor (transaction : Transaction) (pattern : Pattern)
  : Q :=
  let merchantName_ := normalizeMerchant (description transaction) in
  let similarityScore :=
    calculateSimilarity merchantName_ (merchantName pattern) in
  (similarityScore / 100 * 30)%Q.

(** Factor 3: what the [if (pattern.amountMin && pattern.amountMax)] block
    adds. *)
Definition amountFactor (transaction : Transaction) (pattern : Pattern) : Q :=
  let amount := Qabs (amount transaction) in
  match amountMin pattern, amountMax pattern with
  | Some amountMin, Some amountMax =>
      if truthy_Q amountMin && truthy_Q amountMax then
        let isExactMatch := Qlt_bool (Qabs (amount - amountMin)) (1 # 100) in
        let isInRange :=
          Qle_bool amountMin amount && Qle_bool amount amountMax in
        let isCloseToRange :=
          Qle_bool (amountMin * (9 # 10)) amount
          && Qle_bool amount (amountMax * (11 # 10)) in
        if isExactMatch then 20%Q
        else if isInRange then 15%Q
        else if isCloseToRange then 10%Q
        else 0%Q
      else 0%Q
  | _, _ => 0%Q
  end.

(** Factor 4 *)
Definition recurringFactor (pattern : Pattern) : Q :=
  if isRecurring pattern then 10%Q else 0%Q.

(** Factor 5 *)
Definition feedbackFactor (pattern : Pattern) : Q :=
  let totalFeedback := (acceptCount pattern + denyCount pattern)%Z in
  if (0 <? totalFeedback)%Z then
    let acceptRatio :=
      (inject_Z (acceptCount pattern) / inject_Z totalFeedback)%Q in
    if Qle_bool (9 # 10) acceptRatio then 10%Q
    else if Qlt_bool acceptRatio (1 # 2) then (-20)%Q
    else 0%Q
  else 0%Q.

(** The value of [confidence] before the final clamp. *)
Definition weightedSum (transaction : Transaction) (pattern : Pattern) : Q :=
  (0 + matchScore pattern
   + similarityFactor transaction pattern
   + amountFactor transaction pattern
   + recurringFactor pattern
   + feedbackFactor pattern)%Q.

Definition calculateConfidence (transaction : Transaction) (pattern : Pattern)
  : Q :=
  Qmax 0 (Qmin 100 (weightedSum transaction pattern)).

(** *** Suggestions *)

Definition quote : string := String (ascii_of_nat 34) EmptyString.

Definition push (part : string) (parts : list string) : list string :=
  (parts ++ [part])%list.

Definition generateReasoning (transaction : Transaction) (pattern : Pattern)
           (confidence : Q) : string :=
  let name := merchantName pattern in
  let similarity :=
    calculateSimilarity (normalizeMerchant (description transaction)) name in
  let parts := [] in
  let parts :=
    if Qlt_bool 95 similarity
    then push ("Exact match with " ++ quote ++ name ++ quote)%string parts
    else if Qlt_bool 70 similarity
    then push ("Similar to " ++ quote ++ name ++ quote)%string parts
    else parts in
  let parts :=
    if (matchCount pattern =? 1)%Z
    then push "1 similar transaction"%string parts
    else if (1 <? matchCount pattern)%Z
    then push (number_to_string (matchCount pattern)
               ++ " similar transactions")%string parts
    else parts in
  let parts :=
    if isRecurring pattern then push "recurring transaction"%string parts
    else parts in
  let amount := Qabs (amount transaction) in
  let parts :=
    match amountMin pattern with
    | Some amountMin =>
        if truthy_Q amountMin
           && Qlt_bool (Qabs (amount - amountMin)) (1 # 100)
        then push "exact amount match"%string parts
        else parts
    | None => parts
    end in
  String.concat ", "%string parts.

(** The object [findBestMatch] returns. *)
Record Match : Type := mkMatch {
  pattern : Pattern;
  confidence : Q;
  reasoning : string
}.

(** The state of the scan: [bestMatch] and [bestConfidence]. *)
Definition Best : Type := (option Match * Q)%type.

(** The body of [for (const pattern of this.patterns)]. *)
Definition scan_step (transaction : Transaction) (best : Best)
           (pattern : Pattern) : Best :=
  let confidence := calculateConfidence transaction pattern in
  if Qlt_bool (snd best) confidence then
    (Some {| pattern := pattern;
             confidence := confidence;
             reasoning := generateReasoning transaction pattern confidence |},
     confidence)
  else best.

Definition scan (transaction : Transaction) (patterns : list Pattern) : Best :=
  fold_left (scan_step transaction) patterns (None, 0%Q).

Definition findBestMatch (e : Engine) (transaction : Transaction)
  : option Match :=
  let merchantName := normalizeMerchant (description transaction) in
  if negb (truthy_string merchantName) then None
  else
    match scan transaction (patterns e) with
    | (Some bestMatch, bestConfidence) =>
        if Qle_bool (confidenceThreshold e) bestConfidence
        then Some bestMatch
        else None
    | (None, _) => None
    end.

(** *** Feedback *)

(** The four [delete] statements, with the category the transaction is
    left with. *)
Definition clear_suggestion (category : option Z) (t : Transaction)
  : Transaction :=
  {| id := id t;
     date := date t;
     description := description t;
     amount := amount t;
     categoryId := category;
     isSplit := isSplit t;
     pendingReview := None;
     suggestionConfidence := None;
     suggestionReasoning := None;
     suggestionPatternId := None |}.

Definition accepted (now : string) (p : Pattern) : Pattern :=
  {| p_id := p_id p;
     merchantName := merchantName p;
     p_categoryId := p_categoryId p;
     matchCount := matchCount p;
     acceptCount := (acceptCount p + 1)%Z;
     denyCount := denyCount p;
     lastSeen := now;
     amountMin := amountMin p;
     amountMax := amountMax p;
     isRecurring := isRecurring p;
     recurrencePattern := recurrencePattern p |}.

Definition denied (p : Pattern) : Pattern :=
  {| p_id := p_id p;
     merchantName := merchantName p;
     p_categoryId := p_categoryId p;
     matchCount := matchCount p;
     acceptCount := acceptCount p;
     denyCount := (denyCount p + 1)%Z;
     lastSeen := lastSeen p;
     amountMin := amountMin p;
     amountMax := amountMax p;
     isRecurring := isRecurring p;
     recurrencePattern := recurrencePattern p |}.

Definition has_id (i : Z) (p : Pattern) : bool := (p_id p =? i)%Z.

(** The [if (pattern)] block shared by the two feedback methods: the
    object found in [this.patterns] is changed in place and written to the
    store. *)
Definition record_feedback (change : Pattern -> Pattern) (i : Z) (e : Engine)
  : Engine :=
  match find (has_id i) (patterns e) with
  | Some pattern =>
      {| db := updatePattern (change pattern) (db e);
         patterns := replace_first (has_id i) change (patterns e);
         confidenceThreshold := confidenceThreshold e |}
  | None => e
  end.

Definition persist (t : Transaction) (e : Engine) : Engine :=
  {| db := updateTransaction t (db e);
     patterns := patterns e;
     confidenceThreshold := confidenceThreshold e |}.

(** [acceptSuggestion]; [now] is [new Date().toISOString()].  The result
    is the engine and the transaction object after the call. *)
Definition acceptSuggestion (now : string) (transaction : Transaction)
           (e : Engine) : Engine * Transaction :=
  match suggestionPatternId transaction with
  | Some i =>
      if negb (truthy_Z i) then (e, transaction)
      else
        let e := record_feedback (accepted now) i e in
        let transaction :=
          clear_suggestion (categoryId transaction) transaction in
        (persist transaction e, transaction)
  | None => (e, transaction)
  end.

(** [denySuggestion] *)
Definition denySuggestion (transaction : Transaction) (e : Engine)
  : Engine * Transaction :=
  match suggestionPatternId transaction with
  | Some i =>
      if negb (truthy_Z i) then (e, transaction)
      else
        let e := record_feedback denied i e in
        let transaction := clear_suggestion None transaction in
        (persist transaction e, transaction)
  | None => (e, transaction)
  end.

(** *** Bulk operations *)

(** The assignments of the [if (match)] branch of [autoCategorize]. *)
Definition apply_suggestion (m : Match) (t : Transaction) : Transaction :=
  {| id := id t;
     date := date t;
     description := description t;
     amount := amount t;
     categoryId := Some (p_categoryId (pattern m));
     isSplit := isSplit t;
     pendingReview := Some true;
     suggestionConfidence := Some (confidence m);
     suggestionReasoning := Some (reasoning m);
     suggestionPatternId := Some (p_id (pattern m)) |}.

(** The object [autoCategorize] returns. *)
Record Results : Type := mkResults {
  total : nat;
  suggested : nat;
  noMatch : nat;
  suggestions : list (Transaction * Match)   (* [results.transactions] *)
}.

(** The test that makes [autoCategorize] skip a transaction. *)
Definition is_skipped (t : Transaction) : bool :=
  truthy_opt truthy_Z (categoryId t) || isSplit t.

(** The body of [for (const transaction of transactions)]: the results so
    far and, in [seen], the transaction objects visited so far as the loop
    leaves them. *)
Definition autoCategorize_step (e : Engine)
           (acc : Results * list Transaction) (transaction : Transaction)
  : Results * list Transaction :=
  let (results, seen) := acc in
  if is_skipped transaction then (results, (seen ++ [transaction])%list)
  else
    match findBestMatch e transaction with
    | Some m =>
        let transaction := apply_suggestion m transaction in
        ({| total := total results;
            suggested := suggested results + 1;
            noMatch := noMatch results;
            suggestions := (suggestions results ++ [(transaction, m)])%list |},
         (seen ++ [transaction])%list)
    | None =>
        ({| total := total results;
            suggested := suggested results;
            noMatch := noMatch results + 1;
            suggestions := suggestions results |},
         (seen ++ [transaction])%list)
    end.

(** [autoCategorize]: the returned object and the array [transactions]
    after the call (its objects are changed in place).  The engine and the
    store are not written. *)
Definition autoCategorize (e : Engine) (transactions : list Transaction)
  : Results * list Transaction :=
  fold_left (autoCategorize_step e) transactions
            ({| total := length transactions; suggested := 0; noMatch := 0;
                suggestions := [] |}, []).

(** [getPendingReviewTransactions] *)
Definition getPendingReviewTransactions (allTransactions : list Transaction)
  : list Transaction :=
  filter (fun t => match pendingReview t with
                   | Some true => true
                   | _ => false
                   end) allTransactions.

(** The loop of [acceptAllPending]: the engine and the visited objects as
    the loop leaves them. *)
Fixpoint accept_each (now : string) (pending : list Transaction) (e : Engine)
  : Engine * list Transaction :=
  match pending with
  | [] => (e, [])
  | transaction :: rest =>
      let (e1, transaction') := acceptSuggestion now transaction e in
      let (e2, rest') := accept_each now rest e1 in
      (e2, transaction' :: rest')
  end.

(** [acceptAllPending]: the returned count, the engine and the objects of
    [pending] after the call.  The array is taken to hold distinct
    objects. *)
Definition acceptAllPending (now : string) (transactions : list Transaction)
           (e : Engine) : nat * Engine * list Transaction :=
  let pending :=
    filter (fun t => truthy_opt truthy_bool (pendingReview t)) transactions in
  let (e', pending') := accept_each now pending e in
  (length pending, e', pending').

(** ** Definitions used to state the properties *)

(** Edit distance by recursion on the last characters: [dist a b] is the
    entry of the matrix whose row prefix, read backwards, is [a] and
    whose column prefix, read backwards, is [b]. *)
Fixpoint dist (a : chars) : chars -> nat :=
  fix dist_a (b : chars) : nat :=
    match a, b with
    | [], _ => length b
    | _, [] => length a
    | x :: a', y :: b' =>
        if Ascii.eqb x y then dist a' b'
        else min3 (dist a' b' + 1) (dist_a b' + 1) (dist a' b + 1)
    end.

(** The entries of the row of [a] in the columns of [rest], the columns
    before them being [acc] read backwards. *)
Fixpoint row_of (a acc rest : chars) : list nat :=
  match rest with
  | [] => []
  | c :: rest' => dist a (c :: acc) :: row_of a (c :: acc) rest'
  end.

(** The key of [patternMap] for a merchant and a category. *)
Definition group_key (name : string) (category : Z) : string :=
  (name ++ "|" ++ number_to_string category)%string.

(** A transaction of the group of a merchant and a category. *)
Definition in_group (name : string) (category : Z) (t : Transaction) : Prop :=
  normalizeMerchant (description t) = name /\ categoryId t = Some category.

(** Every group of [patternMap] has a member. *)
Definition populated (m : PatternMap) : Prop :=
  forall kv, In kv m -> transactions (snd kv) <> [] /\ amounts (snd kv) <> [].

(** The names the mapping table can return. *)
Definition canonical_names : list string := map snd merchantMappings.

(** The confidence of a pattern is the best of a list: no earlier pattern
    reaches it and no later pattern exceeds it. *)
Definition first_maximum (transaction : Transaction) (before : list Pattern)
           (p : Pattern) (after : list Pattern) : Prop :=
  (forall q, In q before ->
             (calculateConfidence transaction q
              < calculateConfidence transaction p)%Q)
  /\ (forall q, In q after ->
                (calculateConfidence transaction q
                 <= calculateConfidence transaction p)%Q).

(** The match object built for a pattern. *)
Definition match_of (transaction : Transaction) (p : Pattern) : Match :=
  let c := calculateConfidence transaction p in
  {| pattern := p; confidence := c;
     reasoning := generateReasoning transaction p c |}.

(** The four suggestion fields are all present or all absent. *)
Definition fields_together (t : Transaction) : Prop :=
  (pendingReview t <> None /\ suggestionConfidence t <> None
   /\ suggestionReasoning t <> None /\ suggestionPatternId t <> None)
  \/ (pendingReview t = None /\ suggestionConfidence t = None
      /\ suggestionReasoning t = None /\ suggestionPatternId t = None).

(** What [autoCategorize] leaves of one transaction. *)
Definition suggest (e : Engine) (t : Transaction) : Transaction :=
  if is_skipped t then t
  else match findBestMatch e t with
       | Some m => apply_suggestion m t
       | None => t
       end.

(** The entry of [results.transactions] a transaction gives rise to. *)
Definition made (e : Engine) (t : Transaction) : list (Transaction * Match) :=
  if is_skipped t then []
  else match findBestMatch e t with
       | Some m => [(apply_suggestion m t, m)]
       | None => []
       end.

(** A transaction that is tried and finds no match. *)
Definition missed (e : Engine) (t : Transaction) : bool :=
  negb (is_skipped t)
  && match findBestMatch e t with Some _ => false | None => true end.

(** A transaction without category and without suggestion. *)
Definition untouched (t : Transaction) : Prop :=
  categoryId t = None /\ pendingReview t = None
  /\ suggestionConfidence t = None /\ suggestionReasoning t = None
  /\ suggestionPatternId t = None.

(** A string that contains the separator of the keys of [patternMap]. *)
Fixpoint has_bar (s : string) : bool :=
  match s with
  | EmptyString => false
  | String c s' => Ascii.eqb c "|" || has_bar s'
  end.

(** The test that a transaction belongs to the group of a merchant and a
    category. *)
Definition in_group_b (name : string) (category : Z) (t : Transaction)
  : bool :=
  String.eqb (normalizeMerchant (description t)) name
  && match categoryId t with
     | Some c => (c =? category)%Z
     | None => false
     end.

(** The categorized transactions of a list that belong to a group. *)
Definition members (name : string) (category : Z) (l : list Transaction)
  : list Transaction :=
  filter (in_group_b name category) (filter is_categorized l).

(** An entry of [patternMap] after the transactions [c0] were collected:
    the key is that of the group's merchant and category, and the group
    holds, in order, the transactions of [c0] that belong to it. *)
Definition group_ok (c0 : list Transaction) (kv : string * GroupData) : Prop :=
  fst kv = group_key (g_merchantName (snd kv)) (g_categoryId (snd kv))
  /\ truthy_string (g_merchantName (snd kv)) = true
  /\ transactions (snd kv)
     = filter (in_group_b (g_merchantName (snd kv)) (g_categoryId (snd kv)))
              c0
  /\ amounts (snd kv)
     = map (fun t => Qabs (amount t)) (transactions (snd kv))
  /\ transactions (snd kv) <> [].

(** [patternMap] after the transactions [c0] were collected. *)
Definition grouped (c0 : list Transaction) (m : PatternMap) : Prop :=
  NoDup (map fst m)
  /\ (forall kv, In kv m -> group_ok c0 kv)
  /\ (forall t category,
         In t c0 ->
         truthy_string (normalizeMerchant (description t)) = true ->
         categoryId t = Some category ->
         map_has (group_key (normalizeMerchant (description t)) category) m
         = true).

(** A description made of white space only (or empty). *)
Definition blank (description : string) : Prop :=
  forallb Str.is_space (lit description) = true.

(** The identifying pair of a pattern. *)
Definition pair_of (p : Pattern) : string * Z := (merchantName p, p_categoryId p).
Definition mined_pair (np : MinedPattern) : string * Z :=
  (m_merchantName np, m_categoryId np).

(** A store whose keys are distinct and below the next key, and whose
    patterns have distinct identifying pairs. *)
Definition well_keyed (db : Store) : Prop :=
  NoDup (map p_id (stored_patterns db))
  /\ (forall p, In p (stored_patterns db) -> (p_id p < next_pattern_id db)%Z)
  /\ NoDup (map pair_of (stored_patterns db)).

(** The mined pattern, if any, that a stored pattern is merged with. *)
Definition merged_with (newPatterns : list MinedPattern) (p : Pattern)
  : Pattern :=
  match find (fun np => same_pair np p) newPatterns with
  | Some np => merge_existing p np
  | None => p
  end.

(** The mined patterns without a counterpart among stored patterns. *)
Definition fresh (newPatterns : list MinedPattern) (ps : list Pattern)
  : list MinedPattern :=
  filter (fun np => negb (existsb (same_pair np) ps)) newPatterns.

(** Records for mined patterns under consecutive keys from [i]. *)
Fixpoint numbered (i : Z) (nps : list MinedPattern) : list Pattern :=
  match nps with
  | [] => []
  | np :: rest => with_id i np :: numbered (i + 1) rest
  end.

(** Patterns that agree but for [lastSeen], up to the representation of
    their bounds. *)
Definition bound_eq (a b : option Q) : Prop :=
  match a, b with
  | Some x, Some y => (x == y)%Q
  | None, None => True
  | _, _ => False
  end.

Definition same_pattern (p q : Pattern) : Prop :=
  p_id p = p_id q /\ merchantName p = merchantName q
  /\ p_categoryId p = p_categoryId q /\ matchCount p = matchCount q
  /\ acceptCount p = acceptCount q /\ denyCount p = denyCount q
  /\ bound_eq (amountMin p) (amountMin q)
  /\ bound_eq (amountMax p) (amountMax q)
  /\ isRecurring p = isRecurring q
  /\ recurrencePattern p = recurrencePattern q.

(** A mined pattern as a later mining of the same group builds it. *)
Definition relast (now : string) (np : MinedPattern) : MinedPattern :=
  {| m_merchantName := m_merchantName np;
     m_categoryId := m_categoryId np;
     m_matchCount := m_matchCount np;
     m_acceptCount := m_acceptCount np;
     m_denyCount := m_denyCount np;
     m_lastSeen := now;
     m_amountMin := m_amountMin np;
     m_amountMax := m_amountMax np;
     m_isRecurring := m_isRecurring np;
     m_recurrencePattern := m_recurrencePattern np |}.

(** What a merge keeps of a stored pattern: its key, its identifying pair
    and its feedback counters. *)
Definition kept (p p' : Pattern) : Prop :=
  p_id p' = p_id p /\ merchantName p' = merchantName p
  /\ p_categoryId p' = p_categoryId p
  /\ acceptCount p' = acceptCount p /\ denyCount p' = denyCount p.

(** The sum of the accept counts of a list of patterns. *)
Definition total_accepts (ps : list Pattern) : Z :=
  fold_right (fun p n => (acceptCount p + n)%Z) 0%Z ps.

(** A transaction whose suggestion refers to a loaded pattern. *)
Definition refers_to_loaded (e : Engine) (t : Transaction) : bool :=
  match suggestionPatternId t with
  | Some i => truthy_Z i && existsb (has_id i) (patterns e)
  | None => false
  end.

(** The sum of the match counts of a list of mined patterns. *)
Definition total_matches (ps : list MinedPattern) : Z :=
  fold_right (fun p n => (m_matchCount p + n)%Z) 0%Z ps.

(** A transaction that mining counts: categorized, neither split nor
    pending, with a merchant name left by normalization. *)
Definition is_mined (t : Transaction) : bool :=
  is_categorized t && truthy_string (normalizeMerchant (description t)).

(** The number of transactions held by the groups of [patternMap]. *)
Definition group_size (m : PatternMap) : nat :=
  fold_right (fun kv n => length (transactions (snd kv)) + n) 0 m.

(** ** Sample data *)

Module Sample.

Definition groceries : Z := 7.

(** A reading of the clock. *)
Definition now : string := "2024-06-01T00:00:00.000Z".

Definition on (y m d : Z) : Date := {| year := y; month := m; day := d |}.

(** A categorized transaction (no suggestion pending). *)
Definition categorized (i : Z) (d : Date) (text : string) (a : Q) (c : Z)
  : Transaction :=
  {| id := i; date := d; description := text; amount := a;
     categoryId := Some c; isSplit := false;
     pendingReview := None; suggestionConfidence := None;
     suggestionReasoning := None; suggestionPatternId := None |}.

(** An imported transaction without a category. *)
Definition uncategorized (i : Z) (d : Date) (text : string) (a : Q)
  : Transaction :=
  {| id := i; date := d; description := text; amount := a;
     categoryId := None; isSplit := false;
     pendingReview := None; suggestionConfidence := None;
     suggestionReasoning := None; suggestionPatternId := None |}.

(** A transaction carrying a suggestion made from pattern [i]. *)
Definition suggested (i : Z) (t : Transaction) (c : Z) : Transaction :=
  {| id := id t; date := date t; description := description t;
     amount := amount t; categoryId := Some c; isSplit := isSplit t;
     pendingReview := Some true; suggestionConfidence := Some 80%Q;
     suggestionReasoning := Some "5 similar transactions"%string;
     suggestionPatternId := Some i |}.

Definition walmart (i : Z) (d : Date) (a : Q) : Transaction :=
  categorized i d "WALMART #1234" a groceries.

Definition history : list Transaction :=
  [ walmart 1 (on 2024 1 5) (-40); walmart 2 (on 2024 2 6) (-50);
    walmart 3 (on 2024 3 7) (-60); walmart 4 (on 2024 4 1) (-45);
    walmart 5 (on 2024 5 1) (-55) ].

Definition incoming : Transaction :=
  uncategorized 9 (on 2024 6 1) "WALMART #9981" (-45).

Definition netflix (i : Z) (d : Date) : Transaction :=
  categorized i d "NETFLIX.COM" (-15) 3.

Definition first_of_month : Transaction := netflix 1 (on 2024 1 1).
Definition third_of_month : Transaction := netflix 2 (on 2024 2 3).
Definition thirtieth_of_month : Transaction := netflix 3 (on 2024 3 30).

Definition group : list Transaction :=
  [first_of_month; third_of_month; thirtieth_of_month].

Definition stored (i : Z) (name : string) (c count accepts denies : Z)
           (lo hi : option Q) (recurring : bool) : Pattern :=
  {| p_id := i; merchantName := name; p_categoryId := c;
     matchCount := count; acceptCount := accepts; denyCount := denies;
     lastSeen := now;
     amountMin := lo; amountMax := hi;
     isRecurring := recurring;
     recurrencePattern := if recurring then Some monthly else None |}.

(** Two earlier Walmart transactions, one of amount 0. *)
Definition earlier : list Transaction :=
  [ walmart 6 (on 2023 12 1) 0; walmart 7 (on 2023 12 15) (-50) ].

(** The pattern mined from [earlier]. *)
Definition zero_min : Pattern :=
  stored 1 "Walmart" groceries 2 2 0 (Some 0%Q) (Some 50%Q) false.

Definition free_sample : Transaction :=
  uncategorized 10 (on 2024 6 2) "WALMART #1234" 0.

Definition in_range : Transaction :=
  uncategorized 11 (on 2024 6 3) "WALMART #1234" (-30).

Definition store_with (ps : list Pattern) : Store :=
  {| stored_patterns := ps; stored_transactions := [];
     next_pattern_id := Z.of_nat (length ps) + 1 |}.

Definition engine_with (ps : list Pattern) (threshold : Q) : Engine :=
  setConfidenceThreshold threshold (init (new_engine (store_with ps))).

(** A well-established recurring pattern. *)
Definition strong : Pattern :=
  stored 1 "Walmart" groceries 8 8 0 (Some 40%Q) (Some 60%Q) true.

(** A pattern seen once and rejected twice, which shares nothing with the
    sample transactions. *)
Definition rejected : Pattern :=
  stored 2 "Zzz" 4 1 1 2 (Some 1000%Q) (Some 2000%Q) false.

Definition unknown : Transaction :=
  uncategorized 12 (on 2024 6 4) "abc" (-5).

(** [incoming] with a suggestion of the loaded pattern 1, and with a
    suggestion of a pattern that is not loaded. *)
Definition pending : Transaction := suggested 1 incoming groceries.
Definition dangling : Transaction := suggested 99 incoming groceries.

Definition loaded : Engine := engine_with [strong; rejected] 70.

(** A transaction whose description is white space, of an amount inside
    the range of [strong]. *)
Definition blank_tx : Transaction :=
  uncategorized 13 (on 2024 6 5) "   " (-45).

(** The transactions of an import: one already categorized, one that
    matches [strong], one that matches nothing. *)
Definition imported : list Transaction :=
  [walmart 1 (on 2024 1 5) (-40); incoming; unknown].

(** Transactions as a review finds them: two carry suggestions, of a
    loaded pattern and of a pattern that is not loaded. *)
Definition reviewed : list Transaction :=
  [walmart 1 (on 2024 1 5) (-40); pending; dangling].

(** The pattern mined from [history]. *)
Definition mined : MinedPattern :=
  {| m_merchantName := "Walmart"; m_categoryId := groceries;
     m_matchCount := 5; m_acceptCount := 5; m_denyCount := 0;
     m_lastSeen := now; m_amountMin := 40; m_amountMax := 60;
     m_isRecurring := false; m_recurrencePattern := None |}.

End Sample.

(** * Properties *)

(** ** Strings *)

Lemma Str_eqb_eq (a b : chars) : Str.eqb a b = true <-> a = b.
Proof.
  revert b; induction a as [|x a IH]; intros [|y b]; simpl;
    try (split; discriminate); try tauto.
  rewrite andb_true_iff, Ascii.eqb_eq, IH.
  split; [intros [-> ->]; reflexivity | intros H; inversion H; auto].
Qed.

Lemma Str_eqb_refl (a : chars) : Str.eqb a a = true.
Proof. apply Str_eqb_eq; reflexivity. Qed.

Lemma Str_eqb_sym (a b : chars) : Str.eqb a b = Str.eqb b a.
Proof.
  destruct (Str.eqb a b) eqn:E.
  - apply Str_eqb_eq in E; subst; symmetry; apply Str_eqb_refl.
  - destruct (Str.eqb b a) eqn:E'; [|reflexivity].
    apply Str_eqb_eq in E'; subst; rewrite Str_eqb_refl in E; discriminate.
Qed.

Lemma truthy_lit (a : string) :
  a <> EmptyString -> Str.truthy (lit a) = true.
Proof. destruct a; [congruence | reflexivity]. Qed.

(** ** Edit distance *)

Lemma dist_nil_r (a : chars) : dist a [] = length a.
Proof. destruct a; reflexivity. Qed.

Lemma dist_nil_l (b : chars) : dist [] b = length b.
Proof. destruct b; reflexivity. Qed.

Lemma dist_cons (x y : ascii) (a b : chars) :
  dist (x :: a) (y :: b) =
  if Ascii.eqb x y then dist a b
  else min3 (dist a b + 1) (dist (x :: a) b + 1) (dist a (y :: b) + 1).
Proof. reflexivity. Qed.

Lemma dist_sym (a b : chars) : dist a b = dist b a.
Proof.
  revert b; induction a as [|x a IHa]; intros b.
  - rewrite dist_nil_r, dist_nil_l; reflexivity.
  - induction b as [|y b IHb].
    + reflexivity.
    + rewrite !dist_cons, Ascii.eqb_sym, IHb, !IHa.
      destruct (Ascii.eqb y x); [reflexivity|].
      unfold min3; lia.
Qed.

Lemma row_of_nil (acc rest : chars) :
  row_of [] acc rest = seq (S (length acc)) (length rest).
Proof.
  revert acc; induction rest as [|c rest IH]; intros acc; simpl; [reflexivity|].
  f_equal; apply (IH (c :: acc)).
Qed.

(** One pass of the inner loop turns the row of [a] into the row of
    [c2 :: a]. *)
Lemma fill_row_spec (c2 : ascii) (a rest acc : chars) :
  fill_row c2 rest (dist a acc) (row_of a acc rest) (dist (c2 :: a) acc)
  = row_of (c2 :: a) acc rest.
Proof.
  revert acc; induction rest as [|c rest IH]; intros acc; [reflexivity|].
  cbn [row_of fill_row].
  rewrite dist_cons.
  f_equal.
  rewrite <- (IH (c :: acc)), dist_cons; reflexivity.
Qed.

Lemma next_row_spec (str1 a : chars) (c2 : ascii) :
  next_row str1 (dist a [] :: row_of a [] str1) (S (length a)) c2
  = dist (c2 :: a) [] :: row_of (c2 :: a) [] str1.
Proof.
  unfold next_row.
  change (S (length a)) with (dist (c2 :: a) []).
  rewrite fill_row_spec; reflexivity.
Qed.

Lemma last_row_spec (str1 str2 a : chars) :
  last_row str1 str2 (S (length a)) (dist a [] :: row_of a [] str1)
  = dist (rev str2 ++ a) [] :: row_of (rev str2 ++ a) [] str1.
Proof.
  revert a; induction str2 as [|c2 str2 IH]; intros a; [reflexivity|].
  cbn [last_row].
  rewrite next_row_spec.
  change (S (S (length a))) with (S (length (c2 :: a))).
  rewrite IH; cbn [rev]; rewrite <- app_assoc; reflexivity.
Qed.

Lemma last_row_of (a rest acc : chars) :
  last (dist a acc :: row_of a acc rest) 0 = dist a (rev rest ++ acc).
Proof.
  revert acc; induction rest as [|c rest IH]; intros acc; [reflexivity|].
  cbn [row_of rev].
  rewrite <- app_assoc; cbn [app].
  rewrite <- IH; reflexivity.
Qed.

(** The matrix computes [dist] on the reversed strings. *)
Lemma levenshteinDistance_dist (str1 str2 : chars) :
  levenshteinDistance str1 str2 = dist (rev str2) (rev str1).
Proof.
  unfold levenshteinDistance.
  pose proof (last_row_spec str1 str2 []) as H.
  rewrite row_of_nil in H; cbn [length dist] in H.
  cbn [seq]; rewrite H, last_row_of, !app_nil_r; reflexivity.
Qed.

Lemma levenshteinDistance_sym (str1 str2 : chars) :
  levenshteinDistance str1 str2 = levenshteinDistance str2 str1.
Proof. rewrite !levenshteinDistance_dist; apply dist_sym. Qed.

Lemma calculateSimilarity_refl (a : string) :
  a <> EmptyString -> calculateSimilarity a a = 100%Q.
Proof.
  intros H; unfold calculateSimilarity.
  rewrite (truthy_lit _ H), Str_eqb_refl; reflexivity.
Qed.

Lemma calculateSimilarity_sym (a b : string) :
  calculateSimilarity a b = calculateSimilarity b a.
Proof.
  unfold calculateSimilarity.
  rewrite (orb_comm (negb (Str.truthy (lit a)))).
  destruct (negb (Str.truthy (lit b)) || negb (Str.truthy (lit a)));
    [reflexivity|].
  generalize (Str.toLowerCase (lit a)) (Str.toLowerCase (lit b)).
  intros s1 s2.
  rewrite (Str_eqb_sym s1).
  destruct (Str.eqb s2 s1); [reflexivity|].
  rewrite (orb_comm (Str.includes s1 s2)).
  destruct (Str.includes s2 s1 || Str.includes s1 s2); [reflexivity|].
  rewrite (levenshteinDistance_sym s1), (Nat.max_comm (length s1)).
  reflexivity.
Qed.

(** C8. Similarity is reflexive at 100 and symmetric: a non-empty string
    is 100 similar to itself, and [calculateSimilarity a b] equals
    [calculateSimilarity b a] for all strings. *)
Theorem similarity_reflexive_symmetric :
  (forall a : string, a <> EmptyString -> calculateSimilarity a a = 100%Q)
  /\ (forall a b : string, calculateSimilarity a b = calculateSimilarity b a).
Proof.
  split; [apply calculateSimilarity_refl | apply calculateSimilarity_sym].
Qed.

Lemma similarity_reflexive_symmetric_witness :
  calculateSimilarity "Shell"%string "Shell"%string = 100%Q
  /\ calculateSimilarity "kitten"%string "sitting"%string
     = calculateSimilarity "sitting"%string "kitten"%string.
Proof.
  destruct similarity_reflexive_symmetric as [Hrefl Hsym].
  split; [apply Hrefl; discriminate | apply Hsym].
Defined.

(** ** Comparisons on rationals *)

Lemma Qlt_bool_iff (x y : Q) : Qlt_bool x y = true <-> (x < y)%Q.
Proof.
  unfold Qlt_bool; rewrite negb_true_iff, <- not_true_iff_false, Qle_bool_iff.
  split; [apply Qnot_le_lt | apply Qlt_not_le].
Qed.

Lemma Qlt_bool_false (x y : Q) : Qlt_bool x y = false <-> (y <= x)%Q.
Proof.
  unfold Qlt_bool; rewrite negb_false_iff; apply Qle_bool_iff.
Qed.

Lemma Qle_bool_false (x y : Q) : Qle_bool x y = false <-> (y < x)%Q.
Proof.
  rewrite <- not_true_iff_false, Qle_bool_iff.
  split; [apply Qnot_le_lt | apply Qlt_not_le].
Qed.

Lemma truthy_Q_iff (q : Q) : truthy_Q q = true <-> ~ (q == 0)%Q.
Proof.
  unfold truthy_Q; rewrite negb_true_iff, <- not_true_iff_false, Qeq_bool_iff.
  tauto.
Qed.

(** ** Confidence *)

Lemma calculateConfidence_bounds (t : Transaction) (p : Pattern) :
  (0 <= calculateConfidence t p /\ calculateConfidence t p <= 100)%Q.
Proof.
  unfold calculateConfidence; split.
  - apply Q.le_max_l.
  - apply Q.max_lub; [discriminate | apply Q.le_min_l].
Qed.

(** C7. For every transaction and pattern the confidence lies in
    [0, 100]; this holds also where the sum of the five factors is above
    100 or below 0, as it is for the two sample pairs. *)
Theorem confidence_clamped :
  (forall t p,
      (0 <= calculateConfidence t p /\ calculateConfidence t p <= 100)%Q)
  /\ (100 < weightedSum Sample.incoming Sample.strong
      /\ calculateConfidence Sample.incoming Sample.strong == 100)%Q
  /\ (weightedSum Sample.unknown Sample.rejected < 0
      /\ calculateConfidence Sample.unknown Sample.rejected == 0)%Q.
Proof.
  split; [exact calculateConfidence_bounds|].
  split; split; vm_compute; reflexivity.
Qed.

(** The amount factor follows the table of the specification when both
    bounds are recorded and non-zero, and is 0 when a bound is absent. *)
Lemma amountFactor_recorded (t : Transaction) (p : Pattern) (lo hi : Q) :
  amountMin p = Some lo -> amountMax p = Some hi ->
  ~ (lo == 0)%Q -> ~ (hi == 0)%Q ->
  let a := Qabs (amount t) in
  ((Qabs (a - lo) < 1 # 100 -> amountFactor t p = 20)
   /\ (~ Qabs (a - lo) < 1 # 100 -> lo <= a <= hi -> amountFactor t p = 15)
   /\ (~ Qabs (a - lo) < 1 # 100 -> ~ lo <= a <= hi ->
       lo * (9 # 10) <= a <= hi * (11 # 10) -> amountFactor t p = 10)
   /\ (~ Qabs (a - lo) < 1 # 100 -> ~ lo <= a <= hi ->
       ~ lo * (9 # 10) <= a <= hi * (11 # 10) -> amountFactor t p = 0))%Q.
Proof.
  intros Hlo Hhi Hlo0 Hhi0 a.
  unfold amountFactor; rewrite Hlo, Hhi.
  apply truthy_Q_iff in Hlo0, Hhi0; rewrite Hlo0, Hhi0; cbn [andb].
  fold a.
  destruct (Qlt_bool (Qabs (a - lo)) (1 # 100)) eqn:E1;
    [apply Qlt_bool_iff in E1 | apply Qlt_bool_false in E1].
  { repeat split; intros; try reflexivity; exfalso; auto. }
  destruct (Qle_bool lo a && Qle_bool a hi) eqn:E2.
  { apply andb_true_iff in E2; rewrite !Qle_bool_iff in E2.
    repeat split; intros; try reflexivity; exfalso; auto.
    apply (Qlt_not_le _ _ H E1). }
  assert (N2 : ~ (lo <= a <= hi)%Q).
  { intros [H1 H2]; apply Qle_bool_iff in H1, H2.
    rewrite H1, H2 in E2; discriminate. }
  destruct (Qle_bool (lo * (9 # 10)) a && Qle_bool a (hi * (11 # 10))) eqn:E3.
  { apply andb_true_iff in E3; rewrite !Qle_bool_iff in E3.
    repeat split; intros; try reflexivity; exfalso; auto.
    apply (Qlt_not_le _ _ H E1). }
  assert (N3 : ~ (lo * (9 # 10) <= a <= hi * (11 # 10))%Q).
  { intros [H1 H2]; apply Qle_bool_iff in H1, H2.
    rewrite H1, H2 in E3; discriminate. }
  repeat split; intros; try reflexivity; exfalso; auto.
  apply (Qlt_not_le _ _ H E1).
Qed.

Lemma amountFactor_absent (t : Transaction) (p : Pattern) :
  amountMin p = None \/ amountMax p = None -> amountFactor t p = 0%Q.
Proof.
  unfold amountFactor; intros [H | H]; rewrite H;
    [reflexivity | destruct (amountMin p); reflexivity].
Qed.

(** C3. A pattern mined from amounts between 0 and 50 has a recorded
    range, yet the amount factor is 0 both for an amount equal to its
    lower bound (the table gives 20) and for an amount inside the range
    (the table gives 15): the guard of the factor reads a lower bound of 0
    as no bound. *)
Theorem amount_factor_skipped_for_zero_minimum :
  amountMin Sample.zero_min = Some 0%Q
  /\ amountMax Sample.zero_min = Some 50%Q
  /\ (Qabs (Qabs (amount Sample.free_sample) - 0) < 1 # 100)%Q
  /\ amountFactor Sample.free_sample Sample.zero_min = 0%Q
  /\ (0 <= Qabs (amount Sample.in_range) <= 50)%Q
  /\ amountFactor Sample.in_range Sample.zero_min = 0%Q.
Proof.
  repeat split; vm_compute; solve [reflexivity | discriminate].
Qed.

(** ** Merging mined patterns into the store *)

Lemma merged_max_upper (old : option Q) (new : Q) :
  (new <= merged_max old new)%Q
  /\ forall o, old = Some o -> (o <= merged_max old new)%Q.
Proof.
  unfold merged_max; destruct old as [o|].
  - destruct (truthy_Q o) eqn:E.
    + split; [apply Q.le_max_r | intros ? [= <-]; apply Q.le_max_l].
    + split; [apply Q.le_max_r|].
      intros ? [= <-].
      assert (H : (o == 0)%Q).
      { unfold truthy_Q in E.
        apply negb_false_iff, Qeq_bool_iff in E; exact E. }
      rewrite H; apply Q.le_max_l.
  - split; [apply Q.le_max_r | discriminate].
Qed.

(** What a merge keeps and what it replaces.  The lower bound is the
    smaller of the two bounds when the stored one is not 0. *)
Lemma merge_existing_frame (existing : Pattern) (newPattern : MinedPattern) :
  let merged := merge_existing existing newPattern in
  (p_id merged = p_id existing
   /\ merchantName merged = merchantName existing
   /\ p_categoryId merged = p_categoryId existing)
  /\ (matchCount merged = m_matchCount newPattern
      /\ lastSeen merged = m_lastSeen newPattern
      /\ isRecurring merged = m_isRecurring newPattern
      /\ recurrencePattern merged = m_recurrencePattern newPattern)
  /\ (acceptCount merged = acceptCount existing
      /\ denyCount merged = denyCount existing)
  /\ (exists hi, amountMax merged = Some hi
                 /\ (m_amountMax newPattern <= hi)%Q
                 /\ forall o, amountMax existing = Some o -> (o <= hi)%Q)
  /\ (forall o, amountMin existing = Some o -> ~ (o == 0)%Q ->
                amountMin merged = Some (Qmin o (m_amountMin newPattern)))
  /\ (forall o, amountMin existing = Some o -> (o == 0)%Q ->
                amountMin merged = Some (m_amountMin newPattern)).
Proof.
  cbn; repeat split.
  - eexists; split; [reflexivity|]; apply merged_max_upper.
  - intros o -> Ho; cbn; apply truthy_Q_iff in Ho; rewrite Ho; reflexivity.
  - intros o -> Ho; cbn.
    unfold truthy_Q; apply Qeq_bool_iff in Ho; rewrite Ho; reflexivity.
Qed.

Lemma updatePatternsInDatabase_merges (newPattern : MinedPattern) (db : Store)
      (existing : Pattern) :
  find (same_pair newPattern) (getPatterns db) = Some existing ->
  updatePatternsInDatabase [newPattern] db
  = updatePattern (merge_existing existing newPattern) db.
Proof.
  intros H; unfold updatePatternsInDatabase; cbn [merge_loop]; rewrite H.
  reflexivity.
Qed.

(** Mining the two earlier transactions from an empty store leaves the
    pattern with the range 0 to 50. *)
Lemma earlier_mined :
  snd (minePatterns Sample.now Sample.earlier (new_engine empty_store))
  = {| db := Sample.store_with [Sample.zero_min];
       patterns := [Sample.zero_min];
       confidenceThreshold := 70 |}.
Proof. vm_compute; reflexivity. Qed.

(** C4. After mining two Walmart transactions of amounts 0 and 50, the
    store holds the Walmart pattern with the range 0 to 50; mining five
    Walmart purchases between 40 and 60 then merges into that record: the
    match count is replaced, the accept and deny counts are kept, but the
    lower bound becomes 40, so the merged range 40 to 60 no longer
    contains the old bound 0. *)
Theorem merge_drops_zero_minimum :
  exists merged lo,
    stored_patterns
      (db (snd (minePatterns Sample.now Sample.earlier
                             (new_engine empty_store))))
    = [Sample.zero_min]
    /\ stored_patterns
         (db (snd (minePatterns
                     Sample.now Sample.history
                     (snd (minePatterns Sample.now Sample.earlier
                                        (new_engine empty_store))))))
       = [merged]
    /\ p_id merged = p_id Sample.zero_min
    /\ matchCount merged = 5%Z
    /\ acceptCount merged = acceptCount Sample.zero_min
    /\ denyCount merged = denyCount Sample.zero_min
    /\ amountMin Sample.zero_min = Some 0%Q
    /\ amountMin merged = Some lo
    /\ (lo == 40)%Q /\ ~ (lo <= 0)%Q.
Proof.
  eexists; exists 40%Q.
  split; [rewrite earlier_mined; reflexivity|].
  split; [rewrite earlier_mined; vm_compute; reflexivity|].
  repeat split; intros H; apply H; reflexivity.
Qed.

(** ** Finding the best match *)

Lemma scan_snoc (t : Transaction) (l : list Pattern) (x : Pattern) :
  scan t (l ++ [x]) = scan_step t (scan t l) x.
Proof. unfold scan; rewrite fold_left_app; reflexivity. Qed.

(** The scan ends on the first pattern of maximal confidence, provided
    that confidence is positive. *)
Lemma scan_spec (t : Transaction) (l : list Pattern) :
  match scan t l with
  | (None, c) =>
      c = 0%Q /\ forall q, In q l -> (calculateConfidence t q <= 0)%Q
  | (Some m, c) =>
      exists before p after,
        l = before ++ p :: after /\ m = match_of t p
        /\ c = calculateConfidence t p /\ (0 < c)%Q
        /\ first_maximum t before p after
  end.
Proof.
  induction l as [|x l IH] using rev_ind.
  - cbn; split; [reflexivity | intros q []].
  - rewrite scan_snoc.
    destruct (scan t l) as [[m|] c]; unfold scan_step; cbn [snd].
    + destruct IH as (before & p & after & -> & -> & -> & Hpos & Hb & Ha).
      destruct (Qlt_bool (calculateConfidence t p) (calculateConfidence t x))
        eqn:E; [apply Qlt_bool_iff in E | apply Qlt_bool_false in E].
      * exists (before ++ p :: after), x, [].
        repeat split; try reflexivity.
        -- eapply Qlt_trans; eassumption.
        -- intros q Hq; apply in_app_or in Hq as [Hq | [<- | Hq]].
           ++ eapply Qlt_trans; [apply Hb, Hq | exact E].
           ++ exact E.
           ++ eapply Qle_lt_trans; [apply Ha, Hq | exact E].
        -- intros q [].
      * exists before, p, (after ++ [x]).
        repeat split; try assumption.
        -- rewrite <- app_assoc; reflexivity.
        -- intros q Hq; apply in_app_or in Hq as [Hq | [<- | []]];
             [apply Ha, Hq | exact E].
    + destruct IH as [-> Hall].
      destruct (Qlt_bool 0 (calculateConfidence t x)) eqn:E;
        [apply Qlt_bool_iff in E | apply Qlt_bool_false in E].
      * exists l, x, [].
        repeat split; try reflexivity; try assumption.
        -- intros q Hq; eapply Qle_lt_trans; [apply Hall, Hq | exact E].
        -- intros q [].
      * split; [reflexivity|].
        intros q Hq; apply in_app_or in Hq as [Hq | [<- | []]];
          [apply Hall, Hq | exact E].
Qed.

Lemma first_maximum_unique (t : Transaction)
      (before before' : list Pattern) (p p' : Pattern)
      (after after' : list Pattern) :
  (before ++ p :: after = before' ++ p' :: after')%list ->
  first_maximum t before p after -> first_maximum t before' p' after' ->
  before = before' /\ p = p' /\ after = after'.
Proof.
  revert before'; induction before as [|a before IH];
    intros [|a' before'] Heq [Hb Ha] [Hb' Ha']; cbn in Heq.
  - injection Heq as -> ->; auto.
  - injection Heq as <- ->.
    exfalso; apply (Qlt_not_le _ _ (Hb' p (or_introl eq_refl))).
    apply Ha, in_or_app; right; left; reflexivity.
  - injection Heq as -> <-.
    exfalso; apply (Qlt_not_le _ _ (Hb p' (or_introl eq_refl))).
    apply Ha', in_or_app; right; left; reflexivity.
  - injection Heq as <- Heq.
    destruct (IH before' Heq) as (-> & -> & ->); auto.
    + split; [intros q Hq; apply Hb; right; exact Hq | exact Ha].
    + split; [intros q Hq; apply Hb'; right; exact Hq | exact Ha'].
Qed.

(** C5 (amended). For a transaction whose normalized merchant is not
    empty, [findBestMatch] returns a match exactly when some loaded
    pattern has a confidence that no earlier pattern reaches and no later
    pattern exceeds (all patterns are compared, ties keep the first), and
    that confidence is positive and at least the threshold; a best
    positive score equal to the threshold is accepted. *)
Theorem findBestMatch_first_maximum (e : Engine) (t : Transaction) (m : Match) :
  truthy_string (normalizeMerchant (description t)) = true ->
  findBestMatch e t = Some m <->
  exists before p after,
    patterns e = (before ++ p :: after)%list
    /\ m = match_of t p
    /\ first_maximum t before p after
    /\ (0 < calculateConfidence t p)%Q
    /\ (confidenceThreshold e <= calculateConfidence t p)%Q.
Proof.
  intros Hname; unfold findBestMatch; rewrite Hname; cbn [negb].
  pose proof (scan_spec t (patterns e)) as Hscan.
  destruct (scan t (patterns e)) as [[m'|] c].
  - destruct Hscan as (before & p & after & Hl & -> & -> & Hpos & Hmax).
    split.
    + destruct (Qle_bool (confidenceThreshold e) (calculateConfidence t p))
        eqn:E; [|discriminate].
      intros [= <-]; apply Qle_bool_iff in E.
      exists before, p, after; auto.
    + intros (before' & p' & after' & Hl' & -> & Hmax' & _ & Hthr).
      rewrite Hl in Hl'.
      destruct (first_maximum_unique _ _ _ _ _ _ _ Hl' Hmax Hmax')
        as (_ & -> & _).
      apply Qle_bool_iff in Hthr; rewrite Hthr; reflexivity.
  - destruct Hscan as [_ Hall]; split; [discriminate|].
    intros (before & p & after & Hl & _ & _ & Hpos & _).
    exfalso; apply (Qlt_not_le _ _ Hpos), Hall.
    rewrite Hl; apply in_or_app; right; left; reflexivity.
Qed.

Lemma findBestMatch_first_maximum_witness :
  findBestMatch (Sample.engine_with [Sample.rejected; Sample.strong] 100)
                Sample.incoming
  = Some (match_of Sample.incoming Sample.strong).
Proof.
  apply findBestMatch_first_maximum; [vm_compute; reflexivity|].
  exists [Sample.rejected], Sample.strong, [].
  split; [vm_compute; reflexivity|].
  split; [reflexivity|].
  split; [split|split].
  - intros q [<- | []]; vm_compute; reflexivity.
  - intros q [].
  - vm_compute; reflexivity.
  - vm_compute; discriminate.
Defined.

(** The claim of C5 fails at threshold 0: the only loaded pattern scores
    0, which equals the threshold, and no match is returned. *)
Lemma zero_score_never_matches :
  patterns (Sample.engine_with [Sample.rejected] 0) = [Sample.rejected]
  /\ (0 <= confidenceThreshold (Sample.engine_with [Sample.rejected] 0)
       <= 100)%Q
  /\ (calculateConfidence Sample.unknown Sample.rejected
      == confidenceThreshold (Sample.engine_with [Sample.rejected] 0))%Q
  /\ truthy_string (normalizeMerchant (description Sample.unknown)) = true
  /\ findBestMatch (Sample.engine_with [Sample.rejected] 0) Sample.unknown
     = None.
Proof.
  split; [vm_compute; reflexivity|].
  split; [split; vm_compute; discriminate|].
  repeat split; vm_compute; reflexivity.
Qed.

(** ** Feedback *)

Lemma find_replace_first {A : Type} (f : A -> bool) (g : A -> A)
      (l : list A) (p : A) :
  find f l = Some p ->
  exists before after,
    l = (before ++ p :: after)%list
    /\ (forall q, In q before -> f q = false)
    /\ f p = true
    /\ replace_first f g l = (before ++ g p :: after)%list.
Proof.
  induction l as [|x l IH]; cbn; [discriminate|].
  destruct (f x) eqn:E.
  - intros [= <-]; exists [], l; repeat split; auto; intros q [].
  - intros H; destruct (IH H) as (before & after & -> & Hb & Hp & Hr).
    exists (x :: before), after; cbn; rewrite Hr; repeat split; auto.
    intros q [<- | Hq]; auto.
Qed.

Lemma find_none_iff {A : Type} (f : A -> bool) (l : list A) :
  find f l = None <-> forall q, In q l -> f q = false.
Proof.
  split; [apply find_none|].
  induction l as [|x l IH]; cbn; [reflexivity|]; intros H.
  rewrite (H x (or_introl eq_refl)); apply IH; auto.
Qed.

Lemma truthy_Z_nonzero (i : Z) : i <> 0%Z -> negb (truthy_Z i) = false.
Proof.
  intros H; unfold truthy_Z; apply Z.eqb_neq in H; rewrite H; reflexivity.
Qed.

(** C6. When the transaction's [suggestionPatternId] is the id of a
    loaded pattern, [denySuggestion] replaces that pattern, in the loaded
    list and in the store, by a copy whose [denyCount] is one higher and
    whose other fields are unchanged, and leaves the transaction with a
    null [categoryId] and none of the four suggestion fields; that
    transaction is written to the store.  (Ids are keys generated by the
    store, never 0.) *)
Theorem denySuggestion_records_denial
        (e : Engine) (t : Transaction) (i : Z) (p : Pattern) :
  suggestionPatternId t = Some i -> i <> 0%Z ->
  find (has_id i) (patterns e) = Some p ->
  let e' := fst (denySuggestion t e) in
  let t' := snd (denySuggestion t e) in
  (exists before after p',
      patterns e = (before ++ p :: after)%list
      /\ (forall q, In q before -> p_id q <> i)
      /\ patterns e' = (before ++ p' :: after)%list
      /\ stored_patterns (db e') = put p_id p' (stored_patterns (db e))
      /\ denyCount p' = (denyCount p + 1)%Z
      /\ p' = mkPattern (p_id p) (merchantName p) (p_categoryId p)
                (matchCount p) (acceptCount p) (denyCount p') (lastSeen p)
                (amountMin p) (amountMax p) (isRecurring p)
                (recurrencePattern p))
  /\ categoryId t' = None
  /\ (pendingReview t' = None /\ suggestionConfidence t' = None
      /\ suggestionReasoning t' = None /\ suggestionPatternId t' = None)
  /\ (id t' = id t /\ date t' = date t /\ description t' = description t
      /\ amount t' = amount t /\ isSplit t' = isSplit t)
  /\ stored_transactions (db e') = put id t' (stored_transactions (db e)).
Proof.
  intros Hid Hi Hfind; unfold denySuggestion.
  rewrite Hid, (truthy_Z_nonzero _ Hi); cbn [fst snd].
  unfold record_feedback; rewrite Hfind; cbn.
  destruct (find_replace_first (has_id i) denied _ _ Hfind)
    as (before & after & Hl & Hb & _ & Hr).
  repeat split.
  exists before, after, (denied p); rewrite Hr; repeat split; auto.
  intros q Hq; apply Hb in Hq; unfold has_id in Hq.
  apply Z.eqb_neq; exact Hq.
Qed.

Lemma denySuggestion_records_denial_witness :
  categoryId (snd (denySuggestion Sample.pending Sample.loaded)) = None
  /\ suggestionPatternId (snd (denySuggestion Sample.pending Sample.loaded))
     = None.
Proof.
  destruct (denySuggestion_records_denial
              Sample.loaded Sample.pending 1%Z Sample.strong)
    as (_ & Hc & (_ & _ & _ & Hs) & _).
  - reflexivity.
  - discriminate.
  - vm_compute; reflexivity.
  - split; [exact Hc | exact Hs].
Defined.

(** C10. When the transaction's [suggestionPatternId] is set (a store
    key, not 0) and no loaded pattern has that id, [acceptSuggestion] and
    [denySuggestion] change no pattern, neither in the loaded list nor in
    the store, remove the four suggestion fields ([denySuggestion] also
    sets [categoryId] to null, [acceptSuggestion] keeps it) and write the
    transaction to the store. *)
Theorem dangling_reference_tolerated
        (now : string) (e : Engine) (t : Transaction) (i : Z) :
  suggestionPatternId t = Some i -> i <> 0%Z ->
  (forall q, In q (patterns e) -> p_id q <> i) ->
  (let e' := fst (acceptSuggestion now t e) in
   let t' := snd (acceptSuggestion now t e) in
   patterns e' = patterns e
   /\ stored_patterns (db e') = stored_patterns (db e)
   /\ t' = clear_suggestion (categoryId t) t
   /\ (pendingReview t' = None /\ suggestionConfidence t' = None
       /\ suggestionReasoning t' = None /\ suggestionPatternId t' = None)
   /\ categoryId t' = categoryId t
   /\ stored_transactions (db e') = put id t' (stored_transactions (db e)))
  /\
  (let e' := fst (denySuggestion t e) in
   let t' := snd (denySuggestion t e) in
   patterns e' = patterns e
   /\ stored_patterns (db e') = stored_patterns (db e)
   /\ t' = clear_suggestion None t
   /\ (pendingReview t' = None /\ suggestionConfidence t' = None
       /\ suggestionReasoning t' = None /\ suggestionPatternId t' = None)
   /\ categoryId t' = None
   /\ stored_transactions (db e') = put id t' (stored_transactions (db e))).
Proof.
  intros Hid Hi Hnone.
  assert (Hfind : find (has_id i) (patterns e) = None).
  { apply find_none_iff; intros q Hq; apply Z.eqb_neq, Hnone, Hq. }
  unfold acceptSuggestion, denySuggestion, record_feedback.
  rewrite Hid, (truthy_Z_nonzero _ Hi), Hfind; cbn.
  repeat split.
Qed.

Lemma dangling_reference_tolerated_witness :
  patterns (fst (denySuggestion Sample.dangling Sample.loaded))
  = patterns Sample.loaded
  /\ suggestionPatternId (snd (denySuggestion Sample.dangling Sample.loaded))
     = None.
Proof.
  destruct (dangling_reference_tolerated
              Sample.now Sample.loaded Sample.dangling 99%Z)
    as (_ & Hp & _ & _ & (_ & _ & _ & Hs) & _).
  - reflexivity.
  - discriminate.
  - intros q [<- | [<- | []]]; discriminate.
  - split; [exact Hp | exact Hs].
Defined.

(** ** Normalization *)

Lemma canonical_names_fixed (name : string) :
  In name canonical_names -> normalizeMerchant name = name.
Proof.
  intros H; vm_compute in H.
  repeat (destruct H as [<- | H]; [vm_compute; reflexivity|]).
  destruct H.
Qed.

(** A description the mapping table recognizes normalizes to a canonical
    name. *)
Lemma mapped_is_canonical (x name : string) :
  mapped_name (cleanup x) = Some name ->
  In name canonical_names
  /\ (x <> EmptyString -> normalizeMerchant x = name).
Proof.
  unfold mapped_name; intros H.
  destruct (find _ merchantMappings) as [m|] eqn:E; [|discriminate].
  injection H as <-; split.
  - apply find_some in E; apply in_map, E.
  - intros Hx; unfold normalizeMerchant, mapped_name.
    rewrite (truthy_lit _ Hx), E; reflexivity.
Qed.

(** C9 (amended). [normalizeMerchant] is a function, and normalizing
    again changes nothing for every description whose normalized value is
    a canonical merchant name of the mapping table. *)
Theorem normalize_idempotent_on_canonical (x : string) :
  In (normalizeMerchant x) canonical_names ->
  normalizeMerchant (normalizeMerchant x) = normalizeMerchant x.
Proof. apply canonical_names_fixed. Qed.

Lemma normalize_idempotent_on_canonical_witness :
  normalizeMerchant (normalizeMerchant "WALMART #1234")
  = normalizeMerchant "WALMART #1234".
Proof.
  apply normalize_idempotent_on_canonical.
  vm_compute; left; reflexivity.
Defined.

(** The claim of C9 fails for a description with a repeated prefix: one
    pass removes one [POS] marker, the next pass removes the other. *)
Lemma normalize_not_idempotent :
  normalizeMerchant "POS POS FOO" = "POS FOO"%string
  /\ normalizeMerchant (normalizeMerchant "POS POS FOO") = "FOO"%string
  /\ normalizeMerchant (normalizeMerchant "POS POS FOO")
     <> normalizeMerchant "POS POS FOO".
Proof.
  repeat split; vm_compute; solve [reflexivity | discriminate].
Qed.

(** ** Recurring detection *)



Lemma is_similar_to_self (probe : Transaction) :
  is_similar_to probe probe = false.
Proof.
  unfold is_similar_to; rewrite Z.eqb_refl; apply andb_false_r.
Qed.


(** Detection reports a monthly recurrence exactly when there are at
    least two candidates and each of their days is within 3 of the mean
    day. *)
Lemma detectRecurringPattern_monthly
      (t : Transaction) (historical : list Transaction) :
  r_isRecurring (detectRecurringPattern t historical) = true
  <-> 2 <= length (similarTransactions t historical)
      /\ dayVariance
           (map getDate
                (sort date_leb (map date (similarTransactions t historical))))
         = true.
Proof.
  unfold detectRecurringPattern.
  destruct (length (similarTransactions t historical) <? 2) eqn:E;
    [apply Nat.ltb_lt in E | apply Nat.ltb_ge in E].
  - cbn; split; [discriminate | intros [H _]; lia].
  - apply Nat.leb_le in E as E'; rewrite E', andb_true_r.
    destruct (dayVariance _); cbn; split; auto; try discriminate.
    intros [_ H]; discriminate.
Qed.

Lemma insert_sorted_perm {A : Type} (leb : A -> A -> bool) (x : A)
      (l : list A) :
  Permutation (insert_sorted leb x l) (x :: l).
Proof.
  induction l as [|y l IH]; cbn; [apply Permutation_refl|].
  destruct (leb y x); [|apply Permutation_refl].
  eapply perm_trans; [apply perm_skip, IH | apply perm_swap].
Qed.

Lemma sort_acc_perm {A : Type} (leb : A -> A -> bool) (l acc : list A) :
  Permutation (fold_left (fun acc x => insert_sorted leb x acc) l acc)
              (l ++ acc).
Proof.
  revert acc; induction l as [|x l IH]; intros acc; cbn [fold_left];
    [apply Permutation_refl|].
  eapply perm_trans; [apply IH|].
  eapply perm_trans; [apply Permutation_app_head, insert_sorted_perm|].
  apply Permutation_sym, Permutation_middle.
Qed.

(** Sorting permutes. *)
Lemma sort_perm {A : Type} (leb : A -> A -> bool) (l : list A) :
  Permutation (sort leb l) l.
Proof.
  unfold sort; eapply perm_trans; [apply sort_acc_perm|].
  rewrite app_nil_r; apply Permutation_refl.
Qed.

Lemma filter_perm {A : Type} (f : A -> bool) (l l' : list A) :
  Permutation l l' -> Permutation (filter f l) (filter f l').
Proof.
  induction 1 as [|x l l' _ IH|x y l|l l' l'' _ IH1 _ IH2]; cbn.
  - apply Permutation_refl.
  - destruct (f x); [apply perm_skip|]; exact IH.
  - destruct (f x), (f y); try apply Permutation_refl; apply perm_swap.
  - eapply perm_trans; eassumption.
Qed.

Lemma sum_days_acc (l : list Z) (a : Z) :
  fold_left (fun sum day => (sum + day)%Z) l a
  = (a + fold_right Z.add 0%Z l)%Z.
Proof.
  revert a; induction l as [|x l IH]; intros a; cbn; [lia|].
  rewrite IH; lia.
Qed.

Lemma sum_days_perm (l l' : list Z) :
  Permutation l l' -> sum_days l = sum_days l'.
Proof.
  unfold sum_days; rewrite !sum_days_acc.
  induction 1; cbn in *; lia.
Qed.

Lemma forallb_perm {A : Type} (f : A -> bool) (l l' : list A) :
  Permutation l l' -> forallb f l = forallb f l'.
Proof.
  induction 1 as [|x l l' _ IH|x y l|l l' l'' _ IH1 _ IH2]; cbn.
  - reflexivity.
  - rewrite IH; reflexivity.
  - destruct (f x), (f y); reflexivity.
  - congruence.
Qed.

Lemma dayVariance_perm (l l' : list Z) :
  Permutation l l' -> dayVariance l = dayVariance l'.
Proof.
  intros H; unfold dayVariance.
  rewrite (sum_days_perm l l' H), (Permutation_length H).
  apply forallb_perm, H.
Qed.

(** The result of detection is that of any other order of the history. *)
Lemma detectRecurringPattern_perm
      (transaction : Transaction) (l l' : list Transaction) :
  Permutation l l' ->
  detectRecurringPattern transaction l = detectRecurringPattern transaction l'.
Proof.
  intros H; unfold detectRecurringPattern, similarTransactions.
  pose proof (filter_perm (is_similar_to transaction) l l' H) as Hf.
  rewrite (Permutation_length Hf).
  rewrite (dayVariance_perm
             (map getDate
                (sort date_leb
                   (map date (filter (is_similar_to transaction) l))))
             (map getDate
                (sort date_leb
                   (map date (filter (is_similar_to transaction) l'))))).
  - reflexivity.
  - apply Permutation_map.
    eapply perm_trans; [apply sort_perm|].
    eapply perm_trans; [|apply Permutation_sym, sort_perm].
    apply Permutation_map, Hf.
Qed.






(** ** Mining *)

Lemma filter_all {A : Type} (f : A -> bool) (l : list A) :
  (forall x, In x l -> f x = true) -> filter f l = l.
Proof.
  induction l as [|x l IH]; cbn; intros H; [reflexivity|].
  rewrite (H x (or_introl eq_refl)), IH; auto.
Qed.

Lemma In_insert_sorted {A : Type} (leb : A -> A -> bool) (x y : A)
      (l : list A) :
  In y (insert_sorted leb x l) <-> y = x \/ In y l.
Proof.
  induction l as [|z l IH]; cbn; [intuition congruence|].
  destruct (leb z x); cbn; [rewrite IH|]; intuition congruence.
Qed.

Lemma In_sort_acc {A : Type} (leb : A -> A -> bool) (y : A) (l acc : list A) :
  In y (fold_left (fun acc x => insert_sorted leb x acc) l acc)
  <-> In y l \/ In y acc.
Proof.
  revert acc; induction l as [|x l IH]; intros acc; cbn; [tauto|].
  rewrite IH, In_insert_sorted; intuition congruence.
Qed.

(** Sorting keeps the elements. *)
Lemma In_sort {A : Type} (leb : A -> A -> bool) (y : A) (l : list A) :
  In y (sort leb l) <-> In y l.
Proof. unfold sort; rewrite In_sort_acc; cbn; tauto. Qed.

Lemma Math_min_spec (rest : list Q) (a : Q) :
  (forall x, In x (a :: rest) -> (Math_min a rest <= x)%Q)
  /\ (exists x, In x (a :: rest) /\ (Math_min a rest == x)%Q).
Proof.
  unfold Math_min; revert a; induction rest as [|b rest IH]; intros a; cbn.
  - split; [intros x [<- | []]; apply Qle_refl|].
    exists a; split; [left; reflexivity | reflexivity].
  - destruct (IH (Qmin a b)) as [Hlow (x & Hin & Hx)]; split.
    + intros x' [<- | [<- | Hx']].
      * eapply Qle_trans; [apply Hlow; left; reflexivity | apply Q.le_min_l].
      * eapply Qle_trans; [apply Hlow; left; reflexivity | apply Q.le_min_r].
      * apply Hlow; right; exact Hx'.
    + destruct Hin as [<- | Hin]; [|exists x; auto].
      destruct (Q.min_spec a b) as [[_ E] | [_ E]].
      * exists a; split; [auto | rewrite Hx; exact E].
      * exists b; split; [auto | rewrite Hx; exact E].
Qed.

Lemma Math_max_spec (rest : list Q) (a : Q) :
  (forall x, In x (a :: rest) -> (x <= Math_max a rest)%Q)
  /\ (exists x, In x (a :: rest) /\ (Math_max a rest == x)%Q).
Proof.
  unfold Math_max; revert a; induction rest as [|b rest IH]; intros a; cbn.
  - split; [intros x [<- | []]; apply Qle_refl|].
    exists a; split; [left; reflexivity | reflexivity].
  - destruct (IH (Qmax a b)) as [Hup (x & Hin & Hx)]; split.
    + intros x' [<- | [<- | Hx']].
      * eapply Qle_trans; [apply Q.le_max_l | apply Hup; left; reflexivity].
      * eapply Qle_trans; [apply Q.le_max_r | apply Hup; left; reflexivity].
      * apply Hup; right; exact Hx'.
    + destruct Hin as [<- | Hin]; [|exists x; auto].
      destruct (Q.max_spec a b) as [[_ E] | [_ E]].
      * exists b; split; [auto | rewrite Hx; exact E].
      * exists a; split; [auto | rewrite Hx; exact E].
Qed.

(** The bounds computed from the sorted amounts are the least and the
    greatest amount. *)
Lemma range_of_amounts (l : list Q) (lo hi a : Q) (rest : list Q) :
  (forall x, In x l -> (lo <= x <= hi)%Q) ->
  (exists x, In x l /\ (x == lo)%Q) ->
  (exists x, In x l /\ (x == hi)%Q) ->
  sort Qle_bool l = a :: rest ->
  (Math_min a rest == lo)%Q /\ (Math_max a rest == hi)%Q.
Proof.
  intros Hall (xlo & Hlo & Elo) (xhi & Hhi & Ehi) Hs.
  assert (Hin : forall x, In x (a :: rest) <-> In x l)
    by (intros x; rewrite <- Hs; apply In_sort).
  destruct (Math_min_spec rest a) as [Hmin (m & Hm & Em)].
  destruct (Math_max_spec rest a) as [Hmax (M & HM & EM)].
  split; apply Qle_antisym.
  - rewrite <- Elo; apply Hmin, Hin, Hlo.
  - rewrite Em; apply Hall, Hin, Hm.
  - rewrite EM; apply Hall, Hin, HM.
  - rewrite <- Ehi; apply Hmax, Hin, Hhi.
Qed.

Lemma fold_push (l : list Transaction) (data : GroupData) :
  fold_left (fun d t => push_transaction t d) l data
  = {| g_merchantName := g_merchantName data;
       g_categoryId := g_categoryId data;
       transactions := (transactions data ++ l)%list;
       amounts := (amounts data ++ map (fun t => Qabs (amount t)) l)%list |}.
Proof.
  revert data; induction l as [|t l IH]; intros data; cbn.
  - rewrite !app_nil_r; destruct data; reflexivity.
  - rewrite IH; cbn; rewrite <- !app_assoc; reflexivity.
Qed.

Section OneGroup.

Variables (name : string) (category : Z).
Hypothesis name_set : truthy_string name = true.

Lemma collect_first (t : Transaction) :
  in_group name category t ->
  collect [] t
  = [(group_key name category,
      push_transaction t {| g_merchantName := name;
                            g_categoryId := category;
                            transactions := [];
                            amounts := [] |})].
Proof.
  intros [Hn Hc]; unfold collect; rewrite Hn, Hc, name_set; cbn [negb].
  unfold group_key, map_has, map_set, map_modify.
  cbn [existsb map app fst snd negb].
  rewrite String.eqb_refl; reflexivity.
Qed.

Lemma collect_next (t : Transaction) (data : GroupData) :
  in_group name category t ->
  collect [(group_key name category, data)] t
  = [(group_key name category, push_transaction t data)].
Proof.
  intros [Hn Hc]; unfold collect; rewrite Hn, Hc, name_set; cbn [negb].
  unfold group_key, map_has, map_set, map_modify.
  cbn [existsb map app fst snd].
  rewrite String.eqb_refl; cbn [orb negb map fst snd].
  rewrite String.eqb_refl; reflexivity.
Qed.

Lemma collect_all (l : list Transaction) (data : GroupData) :
  (forall t, In t l -> in_group name category t) ->
  fold_left collect l [(group_key name category, data)]
  = [(group_key name category,
      fold_left (fun d t => push_transaction t d) l data)].
Proof.
  revert data; induction l as [|t l IH]; intros data H; [reflexivity|].
  cbn [fold_left]; rewrite collect_next by (apply H; left; reflexivity).
  apply IH; intros t' Ht'; apply H; right; exact Ht'.
Qed.

(** Transactions of one merchant and category form one group, in input
    order. *)
Lemma collect_one_group (first : Transaction) (l : list Transaction) :
  (forall t, In t (first :: l) -> in_group name category t) ->
  fold_left collect (first :: l) []
  = [(group_key name category,
      {| g_merchantName := name;
         g_categoryId := category;
         transactions := first :: l;
         amounts := map (fun t => Qabs (amount t)) (first :: l) |})].
Proof.
  intros H; cbn [fold_left].
  rewrite collect_first by (apply H; left; reflexivity).
  rewrite collect_all by (intros t Ht; apply H; right; exact Ht).
  rewrite fold_push; reflexivity.
Qed.

End OneGroup.

(** The loop over the entries of [patternMap] builds a pattern for every
    group. *)
Lemma collect_populated (m : PatternMap) (t : Transaction) :
  populated m -> populated (collect m t).
Proof.
  intros Hm; unfold collect.
  destruct (negb (truthy_string (normalizeMerchant (description t))));
    [exact Hm|].
  destruct (categoryId t) as [category|]; [|exact Hm].
  set (key := (normalizeMerchant (description t) ++ "|"
               ++ number_to_string category)%string).
  intros kv Hkv; unfold map_modify in Hkv.
  apply in_map_iff in Hkv as (kv0 & <- & Hkv0).
  destruct (String.eqb (fst kv0) key) eqn:E.
  - cbn; split; intros H; apply app_eq_nil in H as [_ H]; discriminate.
  - destruct (negb (map_has key m)); [|apply Hm, Hkv0].
    unfold map_set in Hkv0; apply in_app_or in Hkv0 as [Hkv0 | [<- | []]];
      [apply Hm, Hkv0|].
    cbn in E; rewrite String.eqb_refl in E; discriminate.
Qed.

Lemma collected_populated (l : list Transaction) (m : PatternMap) :
  populated m -> populated (fold_left collect l m).
Proof.
  revert m; induction l as [|t l IH]; intros m Hm; [exact Hm|].
  apply IH, collect_populated, Hm.
Qed.

Lemma to_pattern_total (now : string) (data : GroupData) :
  transactions data <> [] -> amounts data <> [] ->
  exists p, to_pattern now data = Some p.
Proof.
  intros Ht Ha; unfold to_pattern.
  destruct (transactions data) as [|first l]; [congruence|].
  destruct (amounts data) as [|a rest] eqn:E; [congruence|].
  destruct (sort Qle_bool (a :: rest)) as [|a' rest'] eqn:Hs.
  - exfalso.
    assert (H : In a (sort Qle_bool (a :: rest)))
      by (apply In_sort; left; reflexivity).
    rewrite Hs in H; exact H.
  - eexists; reflexivity.
Qed.

Lemma mine_covers_groups (now : string) (l : list Transaction) :
  forall kv, In kv (fold_left collect (filter is_categorized l) []) ->
             exists p, to_pattern now (snd kv) = Some p /\ In p (mine now l).
Proof.
  intros kv Hkv.
  destruct (collected_populated (filter is_categorized l) []
              (fun _ H => match H with end) kv Hkv) as [Ht Ha].
  destruct (to_pattern_total now (snd kv) Ht Ha) as [p Hp].
  exists p; split; [exact Hp|].
  unfold mine; apply in_flat_map; exists kv; split; [exact Hkv|].
  rewrite Hp; left; reflexivity.
Qed.

(** ** End-to-end scenario *)

Lemma normalize_walmart_1234 :
  normalizeMerchant "WALMART #1234" = "Walmart"%string.
Proof. vm_compute; reflexivity. Qed.

Lemma normalize_walmart_9981 :
  normalizeMerchant "WALMART #9981" = "Walmart"%string.
Proof. vm_compute; reflexivity. Qed.

(** The score of a Walmart purchase of 45 against the mined pattern:
    volume 25, similarity 30, amount in range 15, feedback 10, and 10 more
    when the pattern is recurring. *)
Lemma confidence_of_walmart (t : Transaction) (p : Pattern) (lo hi : Q) :
  description t = "WALMART #9981"%string -> (Qabs (amount t) == 45)%Q ->
  merchantName p = "Walmart"%string ->
  matchCount p = 5%Z -> acceptCount p = 5%Z -> denyCount p = 0%Z ->
  amountMin p = Some lo -> (lo == 40)%Q ->
  amountMax p = Some hi -> (hi == 60)%Q ->
  (80 <= calculateConfidence t p)%Q.
Proof.
  intros Hdesc Hamt Hname Hcount Hacc Hden Hmin Hlo Hmax Hhi.
  assert (Hm : (matchScore p == 25)%Q)
    by (unfold matchScore; rewrite Hcount; vm_compute; reflexivity).
  assert (Hs : (similarityFactor t p == 30)%Q).
  { unfold similarityFactor.
    rewrite Hdesc, Hname, normalize_walmart_9981; vm_compute; reflexivity. }
  assert (Ha : amountFactor t p = 15%Q).
  { destruct (amountFactor_recorded t p lo hi Hmin Hmax) as (_ & H15 & _).
    - rewrite Hlo; discriminate.
    - rewrite Hhi; discriminate.
    - apply H15.
      + rewrite Hamt, Hlo; intros H; vm_compute in H; discriminate.
      + rewrite Hamt, Hlo, Hhi; split; discriminate. }
  assert (Hr : (0 <= recurringFactor p)%Q)
    by (unfold recurringFactor; destruct (isRecurring p); discriminate).
  assert (Hf : (feedbackFactor p == 10)%Q)
    by (unfold feedbackFactor; rewrite Hacc, Hden; vm_compute; reflexivity).
  unfold calculateConfidence.
  eapply Qle_trans; [|apply Q.le_max_r].
  apply Q.min_glb; [discriminate|].
  unfold weightedSum; rewrite Hm, Hs, Ha, Hf.
  revert Hr; generalize (recurringFactor p); intros r Hr; lra.
Qed.

(** C1. From a store without patterns, mining exactly five non-split
    categorized transactions described "WALMART #1234", of one category
    and with absolute amounts between 40 and 60 that reach both ends,
    leaves one pattern in the store (and loaded): merchant "Walmart", that
    category, [matchCount] 5, [amountMin] 40, [amountMax] 60.  With the
    threshold at 70, [findBestMatch] then returns, for a transaction
    described "WALMART #9981" of absolute amount 45, a match whose
    confidence is at least 70. *)
Theorem walmart_scenario
        (now : string) (e : Engine) (history : list Transaction)
        (groceries : Z) (t : Transaction) :
  length history = 5 ->
  groceries <> 0%Z ->
  (forall h, In h history ->
             description h = "WALMART #1234"%string
             /\ categoryId h = Some groceries
             /\ isSplit h = false
             /\ pendingReview h <> Some true
             /\ (40 <= Qabs (amount h) <= 60)%Q) ->
  (exists h, In h history /\ (Qabs (amount h) == 40)%Q) ->
  (exists h, In h history /\ (Qabs (amount h) == 60)%Q) ->
  stored_patterns (db e) = [] ->
  (confidenceThreshold e == 70)%Q ->
  description t = "WALMART #9981"%string ->
  (Qabs (amount t) == 45)%Q ->
  let e' := snd (minePatterns now history e) in
  (exists p lo hi,
      stored_patterns (db e') = [p] /\ patterns e' = [p]
      /\ merchantName p = "Walmart"%string
      /\ p_categoryId p = groceries
      /\ matchCount p = 5%Z
      /\ amountMin p = Some lo /\ (lo == 40)%Q
      /\ amountMax p = Some hi /\ (hi == 60)%Q)
  /\ (exists m, findBestMatch e' t = Some m /\ (70 <= confidence m)%Q).
Proof.
  intros Hlen Hg Hall Hlo Hhi Hstore Hthr Hdesc Hamt.
  destruct history as [|first l]; [discriminate|].
  assert (Hgroup : forall h, In h (first :: l) ->
                             in_group "Walmart" groceries h).
  { intros h Hh; destruct (Hall h Hh) as (Hd & Hc & _).
    split; [rewrite Hd; apply normalize_walmart_1234 | exact Hc]. }
  assert (Hcat : filter is_categorized (first :: l) = first :: l).
  { apply filter_all; intros h Hh.
    destruct (Hall h Hh) as (_ & Hc & Hs & Hp & _).
    unfold is_categorized; rewrite Hc, Hs; cbn [truthy_opt negb andb].
    unfold truthy_Z; apply Z.eqb_neq in Hg; rewrite Hg; cbn [negb andb].
    destruct (pendingReview h) as [[|]|]; [congruence | reflexivity..]. }
  assert (Hmined : exists np,
             mine now (first :: l) = [np]
             /\ m_merchantName np = "Walmart"%string
             /\ m_categoryId np = groceries
             /\ m_matchCount np = 5%Z /\ m_acceptCount np = 5%Z
             /\ m_denyCount np = 0%Z
             /\ (m_amountMin np == 40)%Q /\ (m_amountMax np == 60)%Q).
  { unfold mine; rewrite Hcat.
    rewrite (collect_one_group "Walmart" groceries eq_refl first l Hgroup).
    cbn [flat_map snd]; unfold to_pattern; cbn [amounts transactions].
    set (amts := map (fun h => Qabs (amount h)) (first :: l)).
    destruct (sort Qle_bool amts) as [|a rest] eqn:Hs.
    - exfalso.
      assert (H : In (Qabs (amount first)) (sort Qle_bool amts))
        by (apply In_sort; left; reflexivity).
      rewrite Hs in H; exact H.
    - destruct (range_of_amounts amts 40 60 a rest) as [Hmin Hmax]; auto.
      + intros x Hx; apply in_map_iff in Hx as (h & <- & Hh).
        apply (Hall h Hh).
      + destruct Hlo as (h & Hh & Eh).
        exists (Qabs (amount h)); split; [|exact Eh].
        exact (in_map (fun h => Qabs (amount h)) _ _ Hh).
      + destruct Hhi as (h & Hh & Eh).
        exists (Qabs (amount h)); split; [|exact Eh].
        exact (in_map (fun h => Qabs (amount h)) _ _ Hh).
      + rewrite app_nil_r; eexists; split; [reflexivity|].
        cbn [m_merchantName m_categoryId m_matchCount m_acceptCount
             m_denyCount m_amountMin m_amountMax g_merchantName g_categoryId].
        rewrite Hlen; repeat split; assumption. }
  destruct Hmined as (np & Hmine & Hname & Hcategory & Hcount & Hacc & Hden
                      & Hmin & Hmax).
  assert (He' : patterns (snd (minePatterns now (first :: l) e))
                = [with_id (next_pattern_id (db e)) np]
                /\ stored_patterns (db (snd (minePatterns now (first :: l) e)))
                   = [with_id (next_pattern_id (db e)) np]).
  { unfold minePatterns; cbn [snd patterns db]; rewrite Hmine.
    unfold updatePatternsInDatabase, getPatterns; rewrite Hstore.
    cbn [merge_loop find addPattern snd stored_patterns]; rewrite Hstore.
    split; reflexivity. }
  destruct He' as [Hloaded Hstored].
  cbv zeta; split.
  - exists (with_id (next_pattern_id (db e)) np), (m_amountMin np),
      (m_amountMax np).
    rewrite Hloaded, Hstored; cbn; repeat split; assumption.
  - set (p := with_id (next_pattern_id (db e)) np) in *.
    assert (Hconf : (80 <= calculateConfidence t p)%Q).
    { apply (confidence_of_walmart t p (m_amountMin np) (m_amountMax np));
        try assumption; reflexivity. }
    unfold findBestMatch; rewrite Hloaded, Hdesc, normalize_walmart_9981.
    change (negb (truthy_string "Walmart")) with false; cbv iota.
    unfold scan; cbn [fold_left]; unfold scan_step; cbn [snd].
    assert (Hpos : Qlt_bool 0 (calculateConfidence t p) = true).
    { apply Qlt_bool_iff; eapply Qlt_le_trans; [|exact Hconf]; reflexivity. }
    rewrite Hpos.
    assert (Hok : Qle_bool
                    (confidenceThreshold
                       (snd (minePatterns now (first :: l) e)))
                    (calculateConfidence t p) = true).
    { apply Qle_bool_iff; unfold minePatterns; cbn [snd confidenceThreshold].
      rewrite Hthr; eapply Qle_trans; [|exact Hconf]; discriminate. }
    rewrite Hok; eexists; split; [reflexivity|].
    cbn [confidence]; eapply Qle_trans; [|exact Hconf]; discriminate.
Qed.

Lemma walmart_scenario_witness :
  exists m,
    findBestMatch
      (snd (minePatterns Sample.now Sample.history (new_engine empty_store)))
      Sample.incoming = Some m
    /\ (70 <= confidence m)%Q.
Proof.
  apply (walmart_scenario Sample.now (new_engine empty_store) Sample.history
                          Sample.groceries Sample.incoming).
  - reflexivity.
  - discriminate.
  - intros h Hh; cbn in Hh.
    repeat (destruct Hh as [<- | Hh];
            [repeat split; solve [reflexivity | discriminate]|]).
    destruct Hh.
  - exists (Sample.walmart 1 (Sample.on 2024 1 5) (-40)).
    split; [left; reflexivity | reflexivity].
  - exists (Sample.walmart 3 (Sample.on 2024 3 7) (-60)).
    split; [right; right; left; reflexivity | reflexivity].
  - reflexivity.
  - reflexivity.
  - reflexivity.
  - reflexivity.
Defined.

(** * Further properties of the engine *)

(** ** Edit distance and similarity *)

Lemma dist_refl (a : chars) : dist a a = 0.
Proof.
  induction a as [|x a IH]; [reflexivity|].
  rewrite dist_cons, Ascii.eqb_refl; exact IH.
Qed.

Lemma dist_le_max (a b : chars) : dist a b <= Nat.max (length a) (length b).
Proof.
  revert b; induction a as [|x a IHa]; intros b.
  - rewrite dist_nil_l; cbn; lia.
  - induction b as [|y b IHb].
    + rewrite dist_nil_r; cbn [length]; lia.
    + rewrite dist_cons; specialize (IHa b); cbn [length].
      destruct (Ascii.eqb x y); unfold min3; lia.
Qed.

Lemma dist_ge_difference (a b : chars) :
  length a - length b <= dist a b /\ length b - length a <= dist a b.
Proof.
  revert b; induction a as [|x a IHa]; intros b.
  - rewrite dist_nil_l; cbn; lia.
  - induction b as [|y b IHb].
    + rewrite dist_nil_r; cbn [length]; lia.
    + rewrite dist_cons.
      pose proof (IHa b) as H1; pose proof (IHa (y :: b)) as H2.
      cbn [length] in *.
      destruct (Ascii.eqb x y); unfold min3; lia.
Qed.

Lemma dist_zero (a b : chars) : dist a b = 0 -> a = b.
Proof.
  revert b; induction a as [|x a IHa]; intros b.
  - rewrite dist_nil_l; destruct b; [reflexivity | discriminate].
  - destruct b as [|y b]; [discriminate|].
    rewrite dist_cons.
    destruct (Ascii.eqb x y) eqn:E.
    + intros H; apply Ascii.eqb_eq in E; rewrite E, (IHa b H); reflexivity.
    + unfold min3; lia.
Qed.

Lemma rev_injective {A : Type} (a b : list A) : rev a = rev b -> a = b.
Proof.
  intros H; rewrite <- (rev_involutive a), <- (rev_involutive b), H.
  reflexivity.
Qed.

(** X1. The edit distance of two strings is 0 exactly when the strings
    are equal. *)
Theorem levenshteinDistance_zero_iff (str1 str2 : chars) :
  levenshteinDistance str1 str2 = 0 <-> str1 = str2.
Proof.
  rewrite levenshteinDistance_dist; split.
  - intros H; apply dist_zero in H; symmetry; apply rev_injective, H.
  - intros ->; apply dist_refl.
Qed.

(** X2. The edit distance lies between the difference of the lengths and
    the greater length; the distance to the empty string is the length. *)
Theorem levenshteinDistance_bounds (str1 str2 : chars) :
  (length str1 - length str2 <= levenshteinDistance str1 str2
   /\ length str2 - length str1 <= levenshteinDistance str1 str2
   /\ levenshteinDistance str1 str2 <= Nat.max (length str1) (length str2))
  /\ levenshteinDistance str1 [] = length str1
  /\ levenshteinDistance [] str2 = length str2.
Proof.
  rewrite !levenshteinDistance_dist.
  pose proof (dist_ge_difference (rev str2) (rev str1)) as [H1 H2].
  pose proof (dist_le_max (rev str2) (rev str1)) as H3.
  cbn [rev]; rewrite dist_nil_l, dist_nil_r.
  rewrite !length_rev in *; repeat split; lia.
Qed.

Lemma toLowerCase_length (s : chars) :
  length (Str.toLowerCase s) = length s.
Proof. apply length_map. Qed.



(** X4. The similarity is 100 exactly when both strings are non-empty and
    equal up to the case of their letters. *)
Theorem calculateSimilarity_100_iff (str1 str2 : string) :
  (calculateSimilarity str1 str2 == 100)%Q
  <-> str1 <> EmptyString /\ str2 <> EmptyString
      /\ Str.toLowerCase (lit str1) = Str.toLowerCase (lit str2).
Proof.
  unfold calculateSimilarity.
  destruct str1 as [|c1 str1]; [cbn; split; [discriminate | tauto]|].
  destruct str2 as [|c2 str2]; [cbn; split; [discriminate | tauto]|].
  cbn [lit list_ascii_of_string Str.truthy negb orb].
  set (s1 := Str.toLowerCase (c1 :: list_ascii_of_string str1)).
  set (s2 := Str.toLowerCase (c2 :: list_ascii_of_string str2)).
  destruct (Str.eqb s1 s2) eqn:E.
  - apply Str_eqb_eq in E; split; [|reflexivity].
    intros _; repeat split; [discriminate | discriminate | exact E].
  - assert (N : s1 <> s2).
    { intros H; apply Str_eqb_eq in H; congruence. }
    split; [|intros (_ & _ & H); contradiction].
    destruct (Str.includes s1 s2 || Str.includes s2 s1); [discriminate|].
    intros H; exfalso.
    set (m := Nat.max (length s1) (length s2)) in *.
    set (d := levenshteinDistance s1 s2) in *.
    assert (Hm : 0 < m) by (unfold m, s1; cbn [Str.toLowerCase map length]; lia).
    assert (Hd : 0 < d).
    { destruct d eqn:Ed; [|lia].
      apply levenshteinDistance_zero_iff in Ed; contradiction. }
    assert (Hdm : d <= m).
    { unfold d, m; rewrite levenshteinDistance_dist.
      pose proof (dist_le_max (rev s2) (rev s1)) as H'.
      rewrite !length_rev in H'; lia. }
    assert (Hq : (0 < inject_Z (Z.of_nat m))%Q).
    { change 0%Q with (inject_Z 0); rewrite <- Zlt_Qlt; lia. }
    assert (Hlt : (inject_Z (Z.of_nat m - Z.of_nat d) / inject_Z (Z.of_nat m)
                   * 100 < 100)%Q).
    { setoid_replace 100%Q with (1 * 100)%Q at 2 by reflexivity.
      apply Qmult_lt_r; [reflexivity|].
      apply Qlt_shift_div_r; [exact Hq|].
      rewrite Qmult_1_l, <- Zlt_Qlt; lia. }
    destruct (Q.max_spec 0 (inject_Z (Z.of_nat m - Z.of_nat d)
                            / inject_Z (Z.of_nat m) * 100)) as [[_ E'] | [_ E']];
      rewrite E' in H.
    + rewrite H in Hlt; discriminate.
    + discriminate.
Qed.

(** ** Normalized names *)

Lemma drop_spaces_length (s : chars) :
  length (Str.drop_spaces s) <= length s.
Proof.
  induction s as [|c s IH]; cbn; [lia|].
  destruct (Str.is_space c); cbn; lia.
Qed.

Lemma trim_length (s : chars) : length (Str.trim s) <= length s.
Proof.
  unfold Str.trim; rewrite length_rev.
  etransitivity; [apply drop_spaces_length|].
  rewrite length_rev; apply drop_spaces_length.
Qed.

Lemma string_of_list_ascii_length (l : chars) :
  String.length (string_of_list_ascii l) = length l.
Proof. induction l as [|c l IH]; cbn; [reflexivity | rewrite IH; reflexivity]. Qed.

Lemma fallback_name_length (normalized : chars) :
  length (fallback_name normalized) <= 40.
Proof.
  unfold fallback_name.
  match goal with |- context [Nat.ltb 40 (length ?l)] => set (n := l) end.
  destruct (40 <? length n) eqn:E.
  - etransitivity; [apply trim_length|].
    unfold Str.substring0; rewrite length_firstn; lia.
  - apply Nat.ltb_ge in E; exact E.
Qed.

Lemma canonical_names_short (name : string) :
  In name canonical_names -> String.length name <= 40.
Proof.
  intros H; vm_compute in H.
  repeat (destruct H as [<- | H]; [vm_compute; repeat constructor|]).
  destruct H.
Qed.

(** X5. A normalized merchant name has at most 40 characters, whatever
    the description. *)
Theorem normalizeMerchant_length (description : string) :
  String.length (normalizeMerchant description) <= 40.
Proof.
  unfold normalizeMerchant.
  destruct (negb (Str.truthy (lit description))); [cbn; lia|].
  destruct (mapped_name (cleanup description)) as [name|] eqn:E.
  - apply canonical_names_short.
    unfold mapped_name in E.
    destruct (find _ merchantMappings) as [m|] eqn:F; [|discriminate].
    injection E as <-; apply find_some in F.
    apply (in_map snd), F.
  - rewrite string_of_list_ascii_length; apply fallback_name_length.
Qed.

Lemma drop_spaces_blank (s : chars) :
  forallb Str.is_space s = true -> Str.drop_spaces s = [].
Proof.
  induction s as [|c s IH]; cbn; [reflexivity|].
  destruct (Str.is_space c); [exact IH | discriminate].
Qed.

Lemma normalizeMerchant_blank (description : string) :
  blank description -> normalizeMerchant description = EmptyString.
Proof.
  unfold blank; intros H; unfold normalizeMerchant.
  destruct (negb (Str.truthy (lit description))); [reflexivity|].
  unfold cleanup, Str.trim; rewrite (drop_spaces_blank _ H).
  vm_compute; reflexivity.
Qed.

(** X6. A description that is empty or made of white space normalizes to
    the empty name; [findBestMatch] then returns no match, whatever the
    loaded patterns and the threshold, and mining skips the transaction. *)
Theorem blank_description_ignored (e : Engine) (t : Transaction) :
  blank (description t) ->
  normalizeMerchant (description t) = EmptyString
  /\ findBestMatch e t = None
  /\ (forall patternMap, collect patternMap t = patternMap).
Proof.
  intros H; pose proof (normalizeMerchant_blank _ H) as E.
  split; [exact E|]; split.
  - unfold findBestMatch; rewrite E; reflexivity.
  - intros patternMap; unfold collect; rewrite E; reflexivity.
Qed.

Lemma blank_description_ignored_witness :
  findBestMatch Sample.loaded Sample.blank_tx = None.
Proof.
  apply (blank_description_ignored Sample.loaded Sample.blank_tx).
  vm_compute; reflexivity.
Defined.

(** ** Feedback and confidence *)

(** The feedback factor in terms of the counters. *)
Lemma feedbackFactor_counts (p : Pattern) :
  feedbackFactor p =
  let a := acceptCount p in
  let n := (acceptCount p + denyCount p)%Z in
  if (0 <? n)%Z then
    if (9 * n <=? 10 * a)%Z then 10%Q
    else if (2 * a <? n)%Z then (-20)%Q
    else 0%Q
  else 0%Q.
Proof.
  unfold feedbackFactor; cbv zeta.
  destruct (acceptCount p + denyCount p)%Z as [|n|n] eqn:E; try reflexivity.
  change (0 <? Z.pos n)%Z with true; cbv iota.
  assert (H9 : Qle_bool (9 # 10) (inject_Z (acceptCount p) / inject_Z (Z.pos n))
               = (9 * Z.pos n <=? 10 * acceptCount p)%Z).
  { apply Bool.eq_iff_eq_true; rewrite Qle_bool_iff, Z.leb_le.
    unfold Qle, Qdiv, Qinv, Qmult, inject_Z; cbn [Qnum Qden].
    rewrite ?Pos2Z.inj_mul; lia. }
  assert (H2 : Qlt_bool (inject_Z (acceptCount p) / inject_Z (Z.pos n)) (1 # 2)
               = (2 * acceptCount p <? Z.pos n)%Z).
  { apply Bool.eq_iff_eq_true; rewrite Qlt_bool_iff, Z.ltb_lt.
    unfold Qlt, Qdiv, Qinv, Qmult, inject_Z; cbn [Qnum Qden].
    rewrite ?Pos2Z.inj_mul; lia. }
  rewrite H9, H2; reflexivity.
Qed.

Lemma feedbackFactor_denied (p : Pattern) :
  (0 <= acceptCount p)%Z -> (0 <= denyCount p)%Z ->
  (feedbackFactor (denied p) <= feedbackFactor p)%Q.
Proof.
  intros Ha Hd; rewrite !feedbackFactor_counts; cbn [denied acceptCount denyCount].
  cbv zeta.
  repeat match goal with
         | |- context [(?x <? ?y)%Z] => destruct (Z.ltb_spec x y)
         | |- context [(?x <=? ?y)%Z] => destruct (Z.leb_spec x y)
         end; try lia; discriminate.
Qed.

Lemma feedbackFactor_accepted (now : string) (p : Pattern) :
  (0 <= acceptCount p)%Z -> (0 <= denyCount p)%Z ->
  (feedbackFactor p <= feedbackFactor (accepted now p))%Q.
Proof.
  intros Ha Hd; rewrite !feedbackFactor_counts.
  cbn [accepted acceptCount denyCount]; cbv zeta.
  repeat match goal with
         | |- context [(?x <? ?y)%Z] => destruct (Z.ltb_spec x y)
         | |- context [(?x <=? ?y)%Z] => destruct (Z.leb_spec x y)
         end; try lia; discriminate.
Qed.

Lemma clamp_monotone (x y : Q) :
  (x <= y)%Q -> (Qmax 0 (Qmin 100 x) <= Qmax 0 (Qmin 100 y))%Q.
Proof.
  intros H; apply Q.max_le_compat_l, Q.min_le_compat_l, H.
Qed.

(** X7. Feedback moves the confidence of a pattern in the expected
    direction: for every transaction, a recorded denial never raises the
    confidence and a recorded acceptance never lowers it (the counters
    being non-negative, as they are for mined patterns). *)
Theorem feedback_monotone (now : string) (t : Transaction) (p : Pattern) :
  (0 <= acceptCount p)%Z -> (0 <= denyCount p)%Z ->
  (calculateConfidence t (denied p) <= calculateConfidence t p)%Q
  /\ (calculateConfidence t p <= calculateConfidence t (accepted now p))%Q.
Proof.
  intros Ha Hd; unfold calculateConfidence; split; apply clamp_monotone.
  - unfold weightedSum.
    change (matchScore (denied p)) with (matchScore p).
    change (similarityFactor t (denied p)) with (similarityFactor t p).
    change (amountFactor t (denied p)) with (amountFactor t p).
    change (recurringFactor (denied p)) with (recurringFactor p).
    apply Qplus_le_r, feedbackFactor_denied; assumption.
  - unfold weightedSum.
    change (matchScore (accepted now p)) with (matchScore p).
    change (similarityFactor t (accepted now p)) with (similarityFactor t p).
    change (amountFactor t (accepted now p)) with (amountFactor t p).
    change (recurringFactor (accepted now p)) with (recurringFactor p).
    apply Qplus_le_r, feedbackFactor_accepted; assumption.
Qed.

Lemma feedback_monotone_witness :
  (calculateConfidence Sample.in_range (denied Sample.zero_min)
   <= calculateConfidence Sample.in_range Sample.zero_min)%Q.
Proof.
  apply (feedback_monotone Sample.now Sample.in_range Sample.zero_min);
    discriminate.
Defined.

(** ** Matches *)

Lemma match_of_fields (t : Transaction) (p : Pattern) :
  pattern (match_of t p) = p
  /\ confidence (match_of t p) = calculateConfidence t p.
Proof. split; reflexivity. Qed.

Lemma findBestMatch_some (e : Engine) (t : Transaction) (m : Match) :
  findBestMatch e t = Some m ->
  In (pattern m) (patterns e)
  /\ m = match_of t (pattern m)
  /\ normalizeMerchant (description t) <> EmptyString
  /\ (confidenceThreshold e <= confidence m)%Q
  /\ (0 < confidence m <= 100)%Q.
Proof.
  unfold findBestMatch.
  destruct (normalizeMerchant (description t)) as [|c name] eqn:En;
    [discriminate|].
  cbn [truthy_string lit list_ascii_of_string Str.truthy negb].
  pose proof (scan_spec t (patterns e)) as Hscan.
  destruct (scan t (patterns e)) as [[m'|] c']; [|discriminate].
  destruct Hscan as (before & p & after & Hl & -> & -> & Hpos & _).
  destruct (Qle_bool (confidenceThreshold e) (calculateConfidence t p)) eqn:E;
    [|discriminate].
  intros [= <-]; apply Qle_bool_iff in E; cbn [pattern confidence match_of].
  repeat split; try assumption; try discriminate.
  - rewrite Hl; apply in_or_app; right; left; reflexivity.
  - apply calculateConfidence_bounds.
Qed.

(** X8. A match returned by [findBestMatch] is built from one of the
    loaded patterns, for a transaction whose normalized merchant is not
    empty; its confidence is that of the pattern, is positive, at least
    the threshold and at most 100. *)
Theorem findBestMatch_sound (e : Engine) (t : Transaction) (m : Match) :
  findBestMatch e t = Some m ->
  In (pattern m) (patterns e)
  /\ m = match_of t (pattern m)
  /\ normalizeMerchant (description t) <> EmptyString
  /\ (confidenceThreshold e <= confidence m)%Q
  /\ (0 < confidence m <= 100)%Q.
Proof. exact (findBestMatch_some e t m). Qed.

Lemma findBestMatch_sound_witness :
  In (pattern (match_of Sample.incoming Sample.strong))
     (patterns (Sample.engine_with [Sample.rejected; Sample.strong] 100)).
Proof.
  apply (findBestMatch_sound
           (Sample.engine_with [Sample.rejected; Sample.strong] 100)
           Sample.incoming).
  vm_compute; reflexivity.
Defined.

(** ** Suggesting categories in bulk *)

Lemma autoCategorize_fold (e : Engine) (ts : list Transaction)
      (r : Results) (seen : list Transaction) :
  fold_left (autoCategorize_step e) ts (r, seen)
  = ({| total := total r;
        suggested := suggested r + length (flat_map (made e) ts);
        noMatch := noMatch r + length (filter (missed e) ts);
        suggestions := (suggestions r ++ flat_map (made e) ts)%list |},
     (seen ++ map (suggest e) ts)%list).
Proof.
  revert r seen; induction ts as [|t ts IH]; intros r seen.
  - cbn; rewrite !Nat.add_0_r, !app_nil_r; destruct r; reflexivity.
  - cbn [fold_left]; unfold autoCategorize_step at 2.
    cbn [flat_map filter map]; unfold made at 1 3, missed at 1, suggest at 1.
    destruct (is_skipped t).
    + rewrite IH; cbn [negb andb app]; rewrite <- app_assoc; reflexivity.
    + destruct (findBestMatch e t) as [m|]; rewrite IH;
        cbn [total suggested noMatch suggestions negb andb app length];
        rewrite <- !app_assoc; cbn [app]; f_equal; f_equal; lia.
Qed.

Lemma autoCategorize_closed (e : Engine) (ts : list Transaction) :
  autoCategorize e ts
  = ({| total := length ts;
        suggested := length (flat_map (made e) ts);
        noMatch := length (filter (missed e) ts);
        suggestions := flat_map (made e) ts |},
     map (suggest e) ts).
Proof. unfold autoCategorize; rewrite autoCategorize_fold; reflexivity. Qed.

Lemma tried_split (e : Engine) (ts : list Transaction) :
  length (flat_map (made e) ts) + length (filter (missed e) ts)
  = length (filter (fun t => negb (is_skipped t)) ts).
Proof.
  induction ts as [|t ts IH]; [reflexivity|].
  cbn [flat_map filter]; unfold made at 1, missed at 1.
  destruct (is_skipped t); cbn [negb andb app]; [exact IH|].
  destruct (findBestMatch e t); cbn [length app]; lia.
Qed.

(** X9. The counters of [autoCategorize] add up: [total] is the number of
    transactions given, [suggested] and [noMatch] together count the
    transactions that have no category and are not split, [suggested] is
    the number of entries of [results.transactions], and no transaction
    is added to or removed from the array. *)
Theorem autoCategorize_counts (e : Engine) (ts : list Transaction) :
  let results := fst (autoCategorize e ts) in
  total results = length ts
  /\ suggested results + noMatch results
     = length (filter (fun t => negb (is_skipped t)) ts)
  /\ suggested results = length (suggestions results)
  /\ suggested results + noMatch results <= total results
  /\ length (snd (autoCategorize e ts)) = length ts.
Proof.
  rewrite autoCategorize_closed; cbn [fst snd total suggested noMatch suggestions].
  rewrite tried_split, length_map; repeat split.
  apply filter_length_le.
Qed.

Lemma suggest_cases (e : Engine) (t : Transaction) :
  (suggest e t = t
   /\ (is_skipped t = true \/ findBestMatch e t = None))
  \/ (is_skipped t = false
      /\ exists m, findBestMatch e t = Some m
                   /\ suggest e t = apply_suggestion m t).
Proof.
  unfold suggest; destruct (is_skipped t); [left; auto|].
  destruct (findBestMatch e t) as [m|]; [right | left; auto].
  split; [reflexivity | exists m; auto].
Qed.

(** X10. [autoCategorize] leaves a transaction that has a category or is
    split, or for which no match is found, as it is; any other transaction
    gets the category and the id of a loaded pattern, the confidence and
    the reasoning of its best match (a confidence at least the threshold)
    and [pendingReview = true], its other fields being kept. *)
Theorem autoCategorize_each (e : Engine) (ts : list Transaction) :
  Forall2
    (fun t t' =>
       (t' = t /\ (is_skipped t = true \/ findBestMatch e t = None))
       \/ (is_skipped t = false
           /\ exists m,
               findBestMatch e t = Some m
               /\ In (pattern m) (patterns e)
               /\ (confidenceThreshold e <= confidence m)%Q
               /\ categoryId t' = Some (p_categoryId (pattern m))
               /\ pendingReview t' = Some true
               /\ suggestionConfidence t' = Some (confidence m)
               /\ suggestionReasoning t' = Some (reasoning m)
               /\ suggestionPatternId t' = Some (p_id (pattern m))
               /\ (id t' = id t /\ date t' = date t
                   /\ description t' = description t
                   /\ amount t' = amount t /\ isSplit t' = isSplit t)))
    ts (snd (autoCategorize e ts)).
Proof.
  rewrite autoCategorize_closed; cbn [snd].
  induction ts as [|t ts IH]; cbn [map]; constructor; [|exact IH].
  destruct (suggest_cases e t) as [[E H] | (Hs & m & Hm & E)]; rewrite E.
  - left; auto.
  - right; split; [exact Hs|]; exists m.
    destruct (findBestMatch_some e t m Hm) as (Hin & _ & _ & Hthr & _).
    cbn; repeat split; assumption.
Qed.

(** ** The life of a suggestion *)

Lemma acceptSuggestion_transaction (now : string) (t : Transaction)
      (e : Engine) :
  snd (acceptSuggestion now t e)
  = if truthy_opt truthy_Z (suggestionPatternId t)
    then clear_suggestion (categoryId t) t else t.
Proof.
  unfold acceptSuggestion; destruct (suggestionPatternId t) as [i|];
    [|reflexivity].
  cbn [truthy_opt]; destruct (truthy_Z i); reflexivity.
Qed.

Lemma denySuggestion_transaction (t : Transaction) (e : Engine) :
  snd (denySuggestion t e)
  = if truthy_opt truthy_Z (suggestionPatternId t)
    then clear_suggestion None t else t.
Proof.
  unfold denySuggestion; destruct (suggestionPatternId t) as [i|];
    [|reflexivity].
  cbn [truthy_opt]; destruct (truthy_Z i); reflexivity.
Qed.

Lemma fields_together_cleared (c : option Z) (t : Transaction) :
  fields_together (clear_suggestion c t).
Proof. right; repeat split. Qed.

Lemma fields_together_suggest (e : Engine) (t : Transaction) :
  fields_together t -> fields_together (suggest e t).
Proof.
  intros H; destruct (suggest_cases e t) as [[E _] | (_ & m & _ & E)];
    rewrite E; [exact H|].
  left; cbn; repeat split; discriminate.
Qed.

(** X11. The four suggestion fields stay together: if they are all
    present or all absent in every transaction before [autoCategorize],
    [acceptSuggestion] or [denySuggestion], they are so afterwards. *)
Theorem suggestion_fields_stay_together :
  (forall e ts, Forall fields_together ts ->
                Forall fields_together (snd (autoCategorize e ts)))
  /\ (forall now e t, fields_together t ->
                      fields_together (snd (acceptSuggestion now t e)))
  /\ (forall e t, fields_together t ->
                  fields_together (snd (denySuggestion t e))).
Proof.
  split; [|split].
  - intros e ts H; rewrite autoCategorize_closed; cbn [snd].
    induction H as [|t ts Ht _ IH]; cbn [map]; constructor; [|exact IH].
    apply fields_together_suggest, Ht.
  - intros now e t H; rewrite acceptSuggestion_transaction.
    destruct (truthy_opt truthy_Z (suggestionPatternId t));
      [apply fields_together_cleared | exact H].
  - intros e t H; rewrite denySuggestion_transaction.
    destruct (truthy_opt truthy_Z (suggestionPatternId t));
      [apply fields_together_cleared | exact H].
Qed.

Lemma suggestion_fields_stay_together_witness :
  Forall fields_together (snd (autoCategorize Sample.loaded Sample.imported))
  /\ fields_together (snd (denySuggestion Sample.pending Sample.loaded)).
Proof.
  destruct suggestion_fields_stay_together as (Hauto & _ & Hdeny).
  split.
  - apply Hauto; repeat constructor; right; repeat split.
  - apply Hdeny; left; repeat split; discriminate.
Defined.

(** X12. Denying undoes a suggestion: for a transaction without category
    and without suggestion fields, [denySuggestion] applied to what
    [autoCategorize] made of it gives the transaction back, provided the
    loaded patterns carry store keys (ids other than 0). *)
Theorem deny_undoes_suggest (e e' : Engine) (t : Transaction) :
  untouched t ->
  (forall p, In p (patterns e) -> p_id p <> 0%Z) ->
  snd (denySuggestion (suggest e t) e') = t.
Proof.
  intros (Hc & Hp & Hconf & Hr & Hi) Hkeys.
  rewrite denySuggestion_transaction.
  destruct (suggest_cases e t) as [[E _] | (_ & m & Hm & E)]; rewrite E.
  - rewrite Hi; reflexivity.
  - cbn [apply_suggestion suggestionPatternId truthy_opt].
    destruct (findBestMatch_some e t m Hm) as (Hin & _).
    unfold truthy_Z.
    destruct (Z.eqb_spec (p_id (pattern m)) 0) as [E0 | _];
      [exfalso; exact (Hkeys _ Hin E0)|].
    cbn [negb]; unfold clear_suggestion; cbn.
    destruct t; cbn in *; subst; reflexivity.
Qed.

Lemma deny_undoes_suggest_witness :
  snd (denySuggestion (suggest Sample.loaded Sample.incoming) Sample.loaded)
  = Sample.incoming.
Proof.
  apply deny_undoes_suggest.
  - repeat split.
  - intros p [<- | [<- | []]]; discriminate.
Defined.

Lemma filter_remove {A : Type} (f : A -> bool) (l1 l2 : list A) (x : A) :
  f x = false -> filter f (l1 ++ x :: l2) = filter f (l1 ++ l2).
Proof.
  intros H; rewrite !filter_app; cbn [filter]; rewrite H; reflexivity.
Qed.

Lemma suggest_not_categorized (e : Engine) (t : Transaction) :
  is_skipped t = false -> is_categorized (suggest e t) = false.
Proof.
  intros Hs; unfold is_categorized.
  destruct (suggest_cases e t) as [[E _] | (_ & m & _ & E)]; rewrite E.
  - unfold is_skipped in Hs; apply orb_false_iff in Hs as [Hc _].
    rewrite Hc; reflexivity.
  - cbn [apply_suggestion pendingReview truthy_opt truthy_bool negb].
    apply andb_false_r.
Qed.

(** X13. A suggestion does not teach the engine until it is accepted.
    Whatever [autoCategorize] makes of a transaction it tries, that
    transaction contributes nothing to mining; once the suggestion is
    accepted, the transaction carries the category of the pattern, none
    of the suggestion fields, and passes the filter of mining (the
    pattern having a store key and a category other than 0). *)
Theorem suggestion_mined_after_accept
        (now : string) (e e' : Engine) (t : Transaction) :
  is_skipped t = false ->
  (forall l1 l2, mine now (l1 ++ suggest e t :: l2) = mine now (l1 ++ l2))
  /\ (forall m, findBestMatch e t = Some m ->
                p_id (pattern m) <> 0%Z -> p_categoryId (pattern m) <> 0%Z ->
                let t' := snd (acceptSuggestion now (suggest e t) e') in
                categoryId t' = Some (p_categoryId (pattern m))
                /\ pendingReview t' = None
                /\ is_categorized t' = true).
Proof.
  intros Hs; split.
  - intros l1 l2; unfold mine.
    rewrite (filter_remove is_categorized l1 l2 _
               (suggest_not_categorized e t Hs)).
    reflexivity.
  - intros m Hm Hid Hcat; cbv zeta.
    rewrite acceptSuggestion_transaction.
    unfold suggest; rewrite Hs, Hm.
    cbn [apply_suggestion suggestionPatternId truthy_opt categoryId].
    unfold truthy_Z; apply Z.eqb_neq in Hid; rewrite Hid; cbn [negb].
    unfold is_categorized; cbn.
    unfold is_skipped in Hs; apply orb_false_iff in Hs as [_ Hsplit].
    unfold truthy_Z; apply Z.eqb_neq in Hcat; rewrite Hcat, Hsplit.
    repeat split.
Qed.

Lemma suggestion_mined_after_accept_witness :
  mine Sample.now (Sample.history
                   ++ suggest Sample.loaded Sample.incoming :: [])
  = mine Sample.now (Sample.history ++ []).
Proof.
  apply (suggestion_mined_after_accept
           Sample.now Sample.loaded Sample.loaded Sample.incoming).
  reflexivity.
Defined.

(** X14. When the transaction's [suggestionPatternId] is the id (not 0)
    of a loaded pattern, [acceptSuggestion] replaces that pattern, in the
    loaded list and in the store, by a copy whose [acceptCount] is one
    higher and whose [lastSeen] is the time of the call, keeps the
    category of the transaction, removes its four suggestion fields and
    writes it to the store. *)
Theorem acceptSuggestion_records_acceptance
        (now : string) (e : Engine) (t : Transaction) (i : Z) (p : Pattern) :
  suggestionPatternId t = Some i -> i <> 0%Z ->
  find (has_id i) (patterns e) = Some p ->
  let e' := fst (acceptSuggestion now t e) in
  let t' := snd (acceptSuggestion now t e) in
  (exists before after p',
      patterns e = (before ++ p :: after)%list
      /\ (forall q, In q before -> p_id q <> i)
      /\ patterns e' = (before ++ p' :: after)%list
      /\ stored_patterns (db e') = put p_id p' (stored_patterns (db e))
      /\ p' = mkPattern (p_id p) (merchantName p) (p_categoryId p)
                (matchCount p) (acceptCount p + 1) (denyCount p) now
                (amountMin p) (amountMax p) (isRecurring p)
                (recurrencePattern p))
  /\ t' = clear_suggestion (categoryId t) t
  /\ categoryId t' = categoryId t
  /\ stored_transactions (db e') = put id t' (stored_transactions (db e))
  /\ confidenceThreshold e' = confidenceThreshold e.
Proof.
  intros Hid Hi Hfind; unfold acceptSuggestion.
  rewrite Hid, (truthy_Z_nonzero _ Hi); cbn [fst snd].
  unfold record_feedback; rewrite Hfind; cbn.
  destruct (find_replace_first (has_id i) (accepted now) _ _ Hfind)
    as (before & after & Hl & Hb & _ & Hr).
  repeat split.
  exists before, after, (accepted now p); rewrite Hr; repeat split; auto.
  intros q Hq; apply Hb in Hq; unfold has_id in Hq.
  apply Z.eqb_neq; exact Hq.
Qed.

Lemma acceptSuggestion_records_acceptance_witness :
  categoryId (snd (acceptSuggestion Sample.now Sample.pending Sample.loaded))
  = categoryId Sample.pending.
Proof.
  destruct (acceptSuggestion_records_acceptance
              Sample.now Sample.loaded Sample.pending 1%Z Sample.strong)
    as (_ & _ & Hc & _).
  - reflexivity.
  - discriminate.
  - vm_compute; reflexivity.
  - exact Hc.
Defined.

(** ** Accepting all pending suggestions *)

Lemma map_replace_first {A B : Type} (key : A -> B) (f : A -> bool)
      (g : A -> A) (l : list A) :
  (forall x, key (g x) = key x) ->
  map key (replace_first f g l) = map key l.
Proof.
  intros H; induction l as [|x l IH]; cbn; [reflexivity|].
  destruct (f x); cbn; [rewrite H | rewrite IH]; reflexivity.
Qed.

Lemma existsb_has_id (i : Z) (l : list Pattern) :
  existsb (has_id i) l = existsb (fun k => (k =? i)%Z) (map p_id l).
Proof.
  induction l as [|p l IH]; cbn; [reflexivity | rewrite IH; reflexivity].
Qed.

Lemma find_has_id (i : Z) (l : list Pattern) :
  existsb (has_id i) l
  = match find (has_id i) l with Some _ => true | None => false end.
Proof.
  induction l as [|p l IH]; cbn; [reflexivity|].
  destruct (has_id i p); [reflexivity | exact IH].
Qed.

Lemma total_accepts_app (l1 l2 : list Pattern) :
  total_accepts (l1 ++ l2) = (total_accepts l1 + total_accepts l2)%Z.
Proof.
  unfold total_accepts; induction l1 as [|p l1 IH]; cbn; [reflexivity|].
  rewrite IH; lia.
Qed.

Lemma acceptSuggestion_engine (now : string) (t : Transaction) (e : Engine) :
  let e' := fst (acceptSuggestion now t e) in
  map p_id (patterns e') = map p_id (patterns e)
  /\ total_accepts (patterns e')
     = (total_accepts (patterns e)
        + if refers_to_loaded e t then 1 else 0)%Z
  /\ confidenceThreshold e' = confidenceThreshold e.
Proof.
  unfold acceptSuggestion, refers_to_loaded.
  destruct (suggestionPatternId t) as [i|]; [|cbn; repeat split; lia].
  destruct (truthy_Z i); cbn [negb andb]; [|cbn; repeat split; lia].
  cbn [fst]; unfold persist, record_feedback; rewrite find_has_id.
  destruct (find (has_id i) (patterns e)) as [p|] eqn:F;
    cbn [patterns confidenceThreshold]; [|repeat split; lia].
  split; [apply map_replace_first; reflexivity|].
  split; [|reflexivity].
  destruct (find_replace_first (has_id i) (accepted now) _ _ F)
    as (before & after & Hl & _ & _ & Hr).
  rewrite Hr, Hl, !total_accepts_app; cbn; lia.
Qed.

Lemma refers_to_loaded_ids (e e' : Engine) (t : Transaction) :
  map p_id (patterns e') = map p_id (patterns e) ->
  refers_to_loaded e' t = refers_to_loaded e t.
Proof.
  intros H; unfold refers_to_loaded.
  destruct (suggestionPatternId t); [|reflexivity].
  rewrite !existsb_has_id, H; reflexivity.
Qed.

Lemma accept_each_spec (now : string) (pending : list Transaction)
      (e : Engine) :
  snd (accept_each now pending e)
  = map (fun t => snd (acceptSuggestion now t e)) pending
  /\ map p_id (patterns (fst (accept_each now pending e)))
     = map p_id (patterns e)
  /\ total_accepts (patterns (fst (accept_each now pending e)))
     = (total_accepts (patterns e)
        + Z.of_nat (length (filter (refers_to_loaded e) pending)))%Z
  /\ confidenceThreshold (fst (accept_each now pending e))
     = confidenceThreshold e.
Proof.
  revert e; induction pending as [|t pending IH]; intros e.
  - cbn; repeat split; lia.
  - cbn [accept_each].
    destruct (acceptSuggestion now t e) as [e1 t'] eqn:E1.
    pose proof (acceptSuggestion_engine now t e) as (Hid & Hacc & Hthr).
    pose proof (acceptSuggestion_transaction now t e) as Ht.
    rewrite E1 in Hid, Hacc, Hthr, Ht; cbn [fst snd] in Hid, Hacc, Hthr, Ht.
    destruct (accept_each now pending e1) as [e2 rest'] eqn:E2.
    destruct (IH e1) as (Hs & Hid2 & Hacc2 & Hthr2).
    rewrite E2 in Hs, Hid2, Hacc2, Hthr2.
    cbn [fst snd] in *.
    split; [|split; [|split]].
    + cbn [map]; rewrite acceptSuggestion_transaction, <- Ht, Hs.
      f_equal; apply map_ext; intros x.
      rewrite !acceptSuggestion_transaction; reflexivity.
    + rewrite Hid2; exact Hid.
    + rewrite Hacc2, Hacc; cbn [filter].
      rewrite (filter_ext (refers_to_loaded e1) (refers_to_loaded e)
                 (fun x => refers_to_loaded_ids e e1 x Hid)).
      destruct (refers_to_loaded e t); cbn [length]; lia.
    + rewrite Hthr2; exact Hthr.
Qed.

Lemma pending_filters (ts : list Transaction) :
  filter (fun t => truthy_opt truthy_bool (pendingReview t)) ts
  = getPendingReviewTransactions ts.
Proof.
  unfold getPendingReviewTransactions; apply filter_ext; intros t.
  destruct (pendingReview t) as [[|]|]; reflexivity.
Qed.

(** X15. [acceptAllPending] returns the number of transactions under
    review.  Each of them ends as one call of [acceptSuggestion] leaves
    it; when all of them carry a pattern id, none is under review
    afterwards.  The loaded patterns keep their ids and their order, the
    threshold is kept, and the accept counts grow in total by the number
    of reviewed transactions that refer to a loaded pattern. *)
Theorem acceptAllPending_effect
        (now : string) (ts : list Transaction) (e : Engine) :
  let pending := getPendingReviewTransactions ts in
  let count := fst (fst (acceptAllPending now ts e)) in
  let e' := snd (fst (acceptAllPending now ts e)) in
  let pending' := snd (acceptAllPending now ts e) in
  count = length pending
  /\ pending' = map (fun t => snd (acceptSuggestion now t e)) pending
  /\ ((forall t, In t pending ->
                 truthy_opt truthy_Z (suggestionPatternId t) = true) ->
      getPendingReviewTransactions pending' = [])
  /\ map p_id (patterns e') = map p_id (patterns e)
  /\ confidenceThreshold e' = confidenceThreshold e
  /\ total_accepts (patterns e')
     = (total_accepts (patterns e)
        + Z.of_nat (length (filter (refers_to_loaded e) pending)))%Z.
Proof.
  cbv zeta; unfold acceptAllPending; rewrite pending_filters.
  destruct (accept_each_spec now (getPendingReviewTransactions ts) e)
    as (Hs & Hid & Hacc & Hthr).
  destruct (accept_each now (getPendingReviewTransactions ts) e)
    as [e' pending'].
  cbn [fst snd] in *.
  split; [reflexivity|]; split; [exact Hs|].
  split; [|split; [exact Hid | split; [exact Hthr | exact Hacc]]].
  intros Hall; rewrite Hs; clear Hs Hacc.
  induction (getPendingReviewTransactions ts) as [|t l IH]; [reflexivity|].
  cbn [map]; unfold getPendingReviewTransactions at 1; cbn [filter].
  rewrite acceptSuggestion_transaction, (Hall t (or_introl eq_refl)).
  cbn [clear_suggestion pendingReview].
  apply IH; intros x Hx; apply Hall; right; exact Hx.
Qed.

Lemma acceptAllPending_effect_witness :
  getPendingReviewTransactions
    (snd (acceptAllPending Sample.now Sample.reviewed Sample.loaded))
  = [].
Proof.
  apply (acceptAllPending_effect Sample.now Sample.reviewed Sample.loaded).
  intros t Ht; vm_compute in Ht.
  destruct Ht as [<- | [<- | []]]; reflexivity.
Defined.

(** ** Keys of the pattern map *)

Lemma uint_no_bar (d : Decimal.uint) :
  has_bar (NilEmpty.string_of_uint d) = false.
Proof. induction d; cbn; auto. Qed.

Lemma number_no_bar (z : Z) : has_bar (number_to_string z) = false.
Proof.
  unfold number_to_string, NilZero.string_of_int, NilZero.string_of_uint.
  destruct (Z.to_int z) as [d|d]; destruct d; cbn; auto using uint_no_bar.
Qed.

Lemma to_int_not_nil (z : Z) :
  Z.to_int z <> Decimal.Pos Decimal.Nil
  /\ Z.to_int z <> Decimal.Neg Decimal.Nil.
Proof.
  destruct z as [|p|p]; cbn; split; try discriminate;
    intros [= H]; exact (Unsigned.to_uint_nonnil p H).
Qed.

Lemma number_to_string_inj (z1 z2 : Z) :
  number_to_string z1 = number_to_string z2 -> z1 = z2.
Proof.
  unfold number_to_string; intros H.
  apply (f_equal NilZero.int_of_string) in H.
  destruct (to_int_not_nil z1) as [H1 H1'], (to_int_not_nil z2) as [H2 H2'].
  rewrite !NilZero.isi in H by assumption.
  injection H as H; apply DecimalZ.to_int_inj, H.
Qed.

Lemma has_bar_app (a b : string) :
  has_bar (a ++ String "|" b) = true.
Proof.
  induction a as [|c a IH]; cbn; [reflexivity|].
  rewrite IH; apply orb_true_r.
Qed.

Lemma key_split (n1 n2 s1 s2 : string) :
  has_bar s1 = false -> has_bar s2 = false ->
  (n1 ++ String "|" s1 = n2 ++ String "|" s2)%string ->
  n1 = n2 /\ s1 = s2.
Proof.
  intros H1 H2; revert n2; induction n1 as [|c n1 IH]; intros [|c' n2] H;
    cbn in H.
  - injection H as ->; auto.
  - injection H as <- ->; rewrite has_bar_app in H1; discriminate.
  - injection H as -> <-; rewrite has_bar_app in H2; discriminate.
  - injection H as -> H; destruct (IH n2 H) as [-> ->]; auto.
Qed.

(** The key of a group determines its merchant and its category. *)
Lemma group_key_inj (n1 n2 : string) (c1 c2 : Z) :
  group_key n1 c1 = group_key n2 c2 -> n1 = n2 /\ c1 = c2.
Proof.
  unfold group_key; intros H.
  change ("|" ++ number_to_string c1)%string
    with (String "|" (number_to_string c1)) in H.
  change ("|" ++ number_to_string c2)%string
    with (String "|" (number_to_string c2)) in H.
  destruct (key_split _ _ _ _ (number_no_bar c1) (number_no_bar c2) H)
    as [-> Hc].
  split; [reflexivity | apply number_to_string_inj, Hc].
Qed.

(** ** Groups of mined transactions *)

Lemma map_has_iff (key : string) (m : PatternMap) :
  map_has key m = true <-> In key (map fst m).
Proof.
  unfold map_has; rewrite existsb_exists, in_map_iff; split.
  - intros (kv & Hin & E); apply String.eqb_eq in E; exists kv; auto.
  - intros (kv & E & Hin); exists kv; split; [exact Hin|].
    apply String.eqb_eq, E.
Qed.

Lemma map_modify_keys (key : string) (f : GroupData -> GroupData)
      (m : PatternMap) :
  map fst (map_modify key f m) = map fst m.
Proof.
  unfold map_modify; rewrite map_map; apply map_ext; intros kv.
  destruct (String.eqb (fst kv) key); reflexivity.
Qed.

Lemma map_modify_absent (key : string) (f : GroupData -> GroupData)
      (m : PatternMap) :
  map_has key m = false -> map_modify key f m = m.
Proof.
  unfold map_has, map_modify; induction m as [|kv m IH]; cbn; [reflexivity|].
  intros H; apply orb_false_iff in H as [H1 H2].
  rewrite H1, (IH H2); reflexivity.
Qed.

Lemma filter_none {A : Type} (f : A -> bool) (l : list A) :
  (forall x, In x l -> f x = false) -> filter f l = [].
Proof.
  induction l as [|x l IH]; cbn; intros H; [reflexivity|].
  rewrite (H x (or_introl eq_refl)); apply IH; auto.
Qed.

Lemma filter_snoc {A : Type} (f : A -> bool) (l : list A) (x : A) :
  filter f (l ++ [x]) = (filter f l ++ if f x then [x] else [])%list.
Proof. rewrite filter_app; reflexivity. Qed.

Lemma in_group_b_true (name : string) (category : Z) (t : Transaction) :
  in_group_b name category t = true
  <-> normalizeMerchant (description t) = name
      /\ categoryId t = Some category.
Proof.
  unfold in_group_b; rewrite andb_true_iff, String.eqb_eq.
  destruct (categoryId t) as [c|].
  - rewrite Z.eqb_eq; split; intros [H1 H2]; split; congruence.
  - split; intros [_ H]; discriminate.
Qed.

(** An entry whose key is not that of the transaction is not its group. *)
Lemma other_group (c0 : list Transaction) (kv : string * GroupData)
      (t : Transaction) (category : Z) :
  group_ok c0 kv ->
  categoryId t = Some category ->
  fst kv <> group_key (normalizeMerchant (description t)) category ->
  in_group_b (g_merchantName (snd kv)) (g_categoryId (snd kv)) t = false.
Proof.
  intros (Hk & _) Hc Hne.
  destruct (in_group_b _ _ t) eqn:E; [|reflexivity].
  apply in_group_b_true in E as [En Ec]; exfalso; apply Hne.
  rewrite Hk, En; rewrite Hc in Ec; injection Ec as ->; reflexivity.
Qed.

Lemma group_ok_keep (c0 : list Transaction) (kv : string * GroupData)
      (t : Transaction) :
  group_ok c0 kv ->
  in_group_b (g_merchantName (snd kv)) (g_categoryId (snd kv)) t = false ->
  group_ok (c0 ++ [t]) kv.
Proof.
  intros (Hk & Hn & Ht & Ha & Hne) Hf; repeat split; try assumption.
  rewrite filter_snoc, Hf, app_nil_r; exact Ht.
Qed.

Lemma group_ok_push (c0 : list Transaction) (kv : string * GroupData)
      (t : Transaction) :
  group_ok c0 kv ->
  in_group_b (g_merchantName (snd kv)) (g_categoryId (snd kv)) t = true ->
  group_ok (c0 ++ [t]) (fst kv, push_transaction t (snd kv)).
Proof.
  intros (Hk & Hn & Ht & Ha & Hne) Hf; repeat split; cbn; try assumption.
  - rewrite filter_snoc, Hf, Ht; reflexivity.
  - rewrite Ha, map_app; reflexivity.
  - intros H; apply app_eq_nil in H as [_ H]; discriminate.
Qed.

Lemma collect_grouped (c0 : list Transaction) (m : PatternMap)
      (t : Transaction) :
  grouped c0 m -> grouped (c0 ++ [t]) (collect m t).
Proof.
  intros (Hnd & Hok & Hcov); unfold collect.
  destruct (truthy_string (normalizeMerchant (description t))) eqn:Hn;
    cbn [negb].
  2:{ split; [exact Hnd|]; split.
      - intros kv Hkv; apply group_ok_keep; [apply Hok, Hkv|].
        destruct (Hok kv Hkv) as (_ & Hname & _).
        unfold in_group_b.
        destruct (String.eqb_spec (normalizeMerchant (description t))
                                  (g_merchantName (snd kv))) as [E|_];
          [rewrite E in Hn; congruence | reflexivity].
      - intros t' c Hin Ht' Hc; apply in_app_or in Hin as [Hin | [<- | []]];
          [apply (Hcov t' c Hin Ht' Hc) | congruence]. }
  destruct (categoryId t) as [category|] eqn:Hc.
  2:{ split; [exact Hnd|]; split.
      - intros kv Hkv; apply group_ok_keep; [apply Hok, Hkv|].
        unfold in_group_b; rewrite Hc; apply andb_false_r.
      - intros t' c Hin Ht' Hc'; apply in_app_or in Hin as [Hin | [<- | []]];
          [apply (Hcov t' c Hin Ht' Hc') | congruence]. }
  fold (group_key (normalizeMerchant (description t)) category).
  set (key := group_key (normalizeMerchant (description t)) category).
  destruct (map_has key m) eqn:Hhas; cbn [negb].
  - split; [rewrite map_modify_keys; exact Hnd|]; split.
    + intros kv' Hkv'; unfold map_modify in Hkv'.
      apply in_map_iff in Hkv' as (kv & <- & Hkv).
      destruct (String.eqb_spec (fst kv) key) as [E|E].
      * apply group_ok_push; [apply Hok, Hkv|].
        destruct (Hok kv Hkv) as (Hk & _).
        rewrite Hk in E; apply group_key_inj in E as [-> ->].
        apply in_group_b_true; auto.
      * apply group_ok_keep; [apply Hok, Hkv|].
        apply (other_group c0 kv t category (Hok kv Hkv) Hc E).
    + intros t' c Hin Ht' Hc'.
      apply map_has_iff; rewrite map_modify_keys; apply map_has_iff.
      apply in_app_or in Hin as [Hin | [<- | []]];
        [apply (Hcov t' c Hin Ht' Hc')|].
      rewrite Hc in Hc'; injection Hc' as <-; exact Hhas.
  - assert (Hnew : map_modify key (push_transaction t)
                     (map_set key {| g_merchantName :=
                                       normalizeMerchant (description t);
                                     g_categoryId := category;
                                     transactions := [];
                                     amounts := [] |} m)
                   = (m ++ [(key, {| g_merchantName :=
                                       normalizeMerchant (description t);
                                     g_categoryId := category;
                                     transactions := [t];
                                     amounts := [Qabs (amount t)] |})])%list).
    { unfold map_set, map_modify; rewrite map_app.
      fold (map_modify key (push_transaction t) m).
      rewrite (map_modify_absent _ _ _ Hhas); cbn.
      rewrite String.eqb_refl; reflexivity. }
    rewrite Hnew; clear Hnew.
    assert (Habs : ~ In key (map fst m)).
    { intros H; apply map_has_iff in H; congruence. }
    split; [|split].
    + rewrite map_app; cbn [map fst].
      apply NoDup_app; [exact Hnd | repeat constructor; intros [] |].
      intros k Hk [<- | []]; exact (Habs Hk).
    + intros kv Hkv; apply in_app_or in Hkv as [Hkv | [<- | []]].
      * apply group_ok_keep; [apply Hok, Hkv|].
        apply (other_group c0 kv t category (Hok kv Hkv) Hc).
        intros E; apply Habs; fold key in E; rewrite <- E.
        apply in_map, Hkv.
      * repeat split; cbn; try assumption; try discriminate.
        rewrite filter_snoc.
        replace (in_group_b (normalizeMerchant (description t)) category t)
          with true by (symmetry; apply in_group_b_true; auto).
        rewrite filter_none; [reflexivity|].
        intros t0 Ht0.
        destruct (in_group_b (normalizeMerchant (description t)) category t0)
          eqn:E; [|reflexivity].
        apply in_group_b_true in E as [En Ec].
        assert (H : map_has (group_key (normalizeMerchant (description t0))
                                       category) m = true)
          by (apply Hcov; [exact Ht0 | rewrite En; exact Hn | exact Ec]).
        rewrite En in H; fold key in H; congruence.
    + intros t' c Hin Ht' Hc'.
      apply map_has_iff; rewrite map_app; apply in_or_app.
      apply in_app_or in Hin as [Hin | [<- | []]].
      * left; apply map_has_iff, (Hcov t' c Hin Ht' Hc').
      * right; left; cbn.
        rewrite Hc in Hc'; injection Hc' as <-; reflexivity.
Qed.

Lemma collected_grouped (c c0 : list Transaction) (m : PatternMap) :
  grouped c0 m -> grouped (c0 ++ c) (fold_left collect c m).
Proof.
  revert c0 m; induction c as [|t c IH]; intros c0 m H.
  - rewrite app_nil_r; exact H.
  - cbn [fold_left].
    replace (c0 ++ t :: c)%list with ((c0 ++ [t]) ++ c)%list
      by (rewrite <- app_assoc; reflexivity).
    apply IH, collect_grouped, H.
Qed.

Lemma mined_groups (l : list Transaction) :
  grouped (filter is_categorized l)
          (fold_left collect (filter is_categorized l) []).
Proof.
  apply (collected_grouped (filter is_categorized l) [] []).
  split; [constructor|]; split; [intros kv [] | intros t c []].
Qed.

(** ** Mined patterns *)

Lemma to_pattern_some (now : string) (data : GroupData) (p : MinedPattern) :
  to_pattern now data = Some p ->
  exists first others a rest,
    transactions data = first :: others
    /\ sort Qle_bool (amounts data) = a :: rest
    /\ m_merchantName p = g_merchantName data
    /\ m_categoryId p = g_categoryId data
    /\ m_matchCount p = Z.of_nat (length (first :: others))
    /\ m_acceptCount p = Z.of_nat (length (first :: others))
    /\ m_denyCount p = 0%Z
    /\ m_lastSeen p = now
    /\ m_amountMin p = Math_min a rest
    /\ m_amountMax p = Math_max a rest
    /\ m_isRecurring p
       = r_isRecurring (detectRecurringPattern first (first :: others))
    /\ m_recurrencePattern p
       = r_pattern (detectRecurringPattern first (first :: others)).
Proof.
  unfold to_pattern.
  destruct (sort Qle_bool (amounts data)) as [|a rest]; [discriminate|].
  destruct (transactions data) as [|first others]; [discriminate|].
  intros [= <-]; exists first, others, a, rest; cbn; repeat split.
Qed.

(** A mined pattern comes from the group of its merchant and category. *)
Lemma mined_from_group (now : string) (l : list Transaction)
      (p : MinedPattern) :
  In p (mine now l) ->
  exists first others a rest,
    members (m_merchantName p) (m_categoryId p) l = first :: others
    /\ sort Qle_bool (map (fun t => Qabs (amount t)) (first :: others))
       = a :: rest
    /\ truthy_string (m_merchantName p) = true
    /\ m_matchCount p = Z.of_nat (length (first :: others))
    /\ m_acceptCount p = Z.of_nat (length (first :: others))
    /\ m_denyCount p = 0%Z
    /\ m_lastSeen p = now
    /\ m_amountMin p = Math_min a rest
    /\ m_amountMax p = Math_max a rest
    /\ m_isRecurring p
       = r_isRecurring (detectRecurringPattern first (first :: others))
    /\ m_recurrencePattern p
       = r_pattern (detectRecurringPattern first (first :: others)).
Proof.
  intros H; unfold mine in H; apply in_flat_map in H as (kv & Hkv & Hp).
  destruct (to_pattern now (snd kv)) as [p'|] eqn:E; [|destruct Hp].
  destruct Hp as [<- | []].
  destruct (mined_groups l) as (_ & Hok & _).
  destruct (Hok kv Hkv) as (_ & Hname & Ht & Ha & _).
  destruct (to_pattern_some now (snd kv) p' E)
    as (first & others & a & rest & Hf & Hs & En & Ec & Hrest).
  exists first, others, a, rest.
  unfold members; rewrite En, Ec, <- Ht, Hf.
  rewrite Ha, Hf in Hs.
  split; [reflexivity|]; split; [exact Hs|]; split; [exact Hname|].
  exact Hrest.
Qed.

Lemma members_categorized (name : string) (category : Z)
      (l : list Transaction) (t : Transaction) :
  In t (members name category l) ->
  In t l /\ is_categorized t = true
  /\ normalizeMerchant (description t) = name
  /\ categoryId t = Some category.
Proof.
  unfold members; intros H.
  apply filter_In in H as [H Hg]; apply filter_In in H as [Hin Hc].
  apply in_group_b_true in Hg; tauto.
Qed.

(** X16. Every mined pattern stands for a group that is not empty: the
    categorized transactions of its merchant and category.  Its
    [matchCount] is the size of that group, its [acceptCount] equals its
    [matchCount], its [denyCount] is 0, its [lastSeen] is the time of
    mining, its merchant is not empty and its category is not 0. *)
Theorem mined_pattern_counts (now : string) (l : list Transaction)
        (p : MinedPattern) :
  In p (mine now l) ->
  let group := members (m_merchantName p) (m_categoryId p) l in
  group <> []
  /\ m_matchCount p = Z.of_nat (length group)
  /\ (1 <= m_matchCount p)%Z
  /\ m_acceptCount p = m_matchCount p
  /\ m_denyCount p = 0%Z
  /\ m_lastSeen p = now
  /\ m_merchantName p <> EmptyString
  /\ m_categoryId p <> 0%Z.
Proof.
  intros H; cbv zeta.
  destruct (mined_from_group now l p H)
    as (first & others & a & rest & Hg & _ & Hn & Hm & Ha & Hd & Hl & _).
  rewrite Hg, Hm, Ha, Hd, Hl.
  repeat split; try discriminate.
  - cbn [length]; lia.
  - intros E; rewrite E in Hn; discriminate.
  - assert (Hin : In first (members (m_merchantName p) (m_categoryId p) l))
      by (rewrite Hg; left; reflexivity).
    apply members_categorized in Hin as (_ & Hc & _ & Hcat).
    unfold is_categorized in Hc; rewrite Hcat in Hc; cbn in Hc.
    intros E; rewrite E in Hc; discriminate.
Qed.

Lemma mined_pattern_counts_witness :
  m_matchCount Sample.mined = Z.of_nat (length Sample.history).
Proof.
  destruct (mined_pattern_counts Sample.now Sample.history Sample.mined)
    as (_ & H & _).
  - vm_compute; left; reflexivity.
  - rewrite H; vm_compute; reflexivity.
Defined.

(** X17. The amount range of a mined pattern is the range of the absolute
    amounts of its group: every member lies between [amountMin] and
    [amountMax], both bounds are the amount of a member, and
    [0 <= amountMin <= amountMax]. *)
Theorem mined_pattern_range (now : string) (l : list Transaction)
        (p : MinedPattern) :
  In p (mine now l) ->
  let group := members (m_merchantName p) (m_categoryId p) l in
  (forall t, In t group ->
             (m_amountMin p <= Qabs (amount t) <= m_amountMax p)%Q)
  /\ (exists t, In t group /\ (Qabs (amount t) == m_amountMin p)%Q)
  /\ (exists t, In t group /\ (Qabs (amount t) == m_amountMax p)%Q)
  /\ (0 <= m_amountMin p <= m_amountMax p)%Q.
Proof.
  intros H; cbv zeta.
  destruct (mined_from_group now l p H)
    as (first & others & a & rest & Hg & Hs & _ & _ & _ & _ & _ & Hmin & Hmax
        & _).
  rewrite Hg, Hmin, Hmax.
  set (amts := map (fun t => Qabs (amount t)) (first :: others)) in *.
  assert (Hin : forall x, In x (a :: rest) <-> In x amts)
    by (intros x; rewrite <- Hs; apply In_sort).
  destruct (Math_min_spec rest a) as [Hlow (lo & Hlo & Elo)].
  destruct (Math_max_spec rest a) as [Hup (hi & Hhi & Ehi)].
  assert (Hall : forall t, In t (first :: others) ->
                           (Math_min a rest <= Qabs (amount t)
                            <= Math_max a rest)%Q).
  { intros t Ht.
    assert (Hx : In (Qabs (amount t)) (a :: rest))
      by (apply Hin; exact (in_map (fun t => Qabs (amount t)) _ _ Ht)).
    split; [apply Hlow, Hx | apply Hup, Hx]. }
  apply Hin, in_map_iff in Hlo as (tlo & <- & Hlo).
  apply Hin, in_map_iff in Hhi as (thi & <- & Hhi).
  split; [exact Hall|].
  split; [exists tlo; split; [exact Hlo | symmetry; exact Elo]|].
  split; [exists thi; split; [exact Hhi | symmetry; exact Ehi]|].
  split.
  - rewrite Elo; apply Qabs_nonneg.
  - destruct (Hall first (or_introl eq_refl)) as [H1 H2].
    eapply Qle_trans; eassumption.
Qed.

Lemma mined_pattern_range_witness :
  (0 <= m_amountMin Sample.mined <= m_amountMax Sample.mined)%Q.
Proof.
  apply (mined_pattern_range Sample.now Sample.history Sample.mined).
  vm_compute; left; reflexivity.
Defined.

Lemma similar_excludes_probe (first : Transaction) (others : list Transaction) :
  length (similarTransactions first (first :: others)) <= length others.
Proof.
  unfold similarTransactions; cbn [filter].
  rewrite is_similar_to_self; apply filter_length_le.
Qed.

Lemma detectRecurringPattern_result (t : Transaction)
      (historical : list Transaction) :
  detectRecurringPattern t historical
  = {| r_isRecurring := true; r_pattern := Some monthly |}
  \/ detectRecurringPattern t historical = not_recurring.
Proof.
  unfold detectRecurringPattern.
  destruct (_ <? 2); [right; reflexivity|].
  destruct (_ && _); [left | right]; reflexivity.
Qed.

(** X18. A mined pattern is flagged recurring only if its group has at
    least three transactions (the first one and two candidates), and then
    its recurrence pattern is [monthly]; a pattern that is not flagged has
    no recurrence pattern. *)
Theorem mined_pattern_recurrence (now : string) (l : list Transaction)
        (p : MinedPattern) :
  In p (mine now l) ->
  (m_isRecurring p = true ->
   (3 <= m_matchCount p)%Z /\ m_recurrencePattern p = Some monthly)
  /\ (m_isRecurring p = false -> m_recurrencePattern p = None).
Proof.
  intros H.
  destruct (mined_from_group now l p H)
    as (first & others & a & rest & _ & _ & _ & Hm & _ & _ & _ & _ & _ & Hr
        & Hp).
  rewrite Hm, Hr, Hp.
  pose proof (similar_excludes_probe first others) as Hlen.
  pose proof (detectRecurringPattern_monthly first (first :: others)) as Hiff.
  destruct (detectRecurringPattern_result first (first :: others)) as [E | E];
    rewrite E in *; cbn [r_isRecurring r_pattern not_recurring].
  - split; [|discriminate].
    intros _; split; [|reflexivity].
    destruct (proj1 Hiff eq_refl) as [H2 _]; cbn [length]; lia.
  - split; [discriminate | reflexivity].
Qed.

Lemma mined_pattern_recurrence_witness :
  m_recurrencePattern Sample.mined = None.
Proof.
  apply (mined_pattern_recurrence Sample.now Sample.history Sample.mined).
  - vm_compute; left; reflexivity.
  - reflexivity.
Defined.

Lemma group_ok_pattern (now : string) (c0 : list Transaction)
      (kv : string * GroupData) :
  group_ok c0 kv ->
  exists p, to_pattern now (snd kv) = Some p
            /\ mined_pair p = (g_merchantName (snd kv), g_categoryId (snd kv)).
Proof.
  intros (_ & _ & _ & Ha & Hne).
  assert (Hne' : amounts (snd kv) <> []).
  { rewrite Ha; destruct (transactions (snd kv)); [congruence | discriminate]. }
  destruct (to_pattern_total now (snd kv) Hne Hne') as [p Hp].
  exists p; split; [exact Hp|].
  destruct (to_pattern_some now (snd kv) p Hp)
    as (_ & _ & _ & _ & _ & _ & En & Ec & _).
  unfold mined_pair; rewrite En, Ec; reflexivity.
Qed.

Lemma mine_pairs (now : string) (l : list Transaction) :
  map mined_pair (mine now l)
  = map (fun kv => (g_merchantName (snd kv), g_categoryId (snd kv)))
        (fold_left collect (filter is_categorized l) []).
Proof.
  unfold mine; destruct (mined_groups l) as (_ & Hok & _).
  induction (fold_left collect (filter is_categorized l) []) as [|kv m IH];
    [reflexivity|].
  cbn [flat_map map].
  destruct (group_ok_pattern now _ kv (Hok kv (or_introl eq_refl)))
    as (p & Hp & Hpair).
  rewrite Hp, map_app; cbn [map app]; rewrite Hpair, IH; [reflexivity|].
  intros kv' Hkv'; apply Hok; right; exact Hkv'.
Qed.

(** X19. Mining yields one pattern per merchant and category: no two
    mined patterns share both, and every categorized transaction whose
    normalized merchant is not empty is covered by the mined pattern of
    its merchant and category. *)
Theorem mined_patterns_distinct (now : string) (l : list Transaction) :
  NoDup (map mined_pair (mine now l))
  /\ (forall t category,
         In t l -> is_categorized t = true ->
         normalizeMerchant (description t) <> EmptyString ->
         categoryId t = Some category ->
         exists p, In p (mine now l)
                   /\ mined_pair p
                      = (normalizeMerchant (description t), category)).
Proof.
  destruct (mined_groups l) as (Hnd & Hok & Hcov); split.
  - rewrite mine_pairs.
    apply (NoDup_map_inv (fun nc => group_key (fst nc) (snd nc))).
    rewrite map_map; cbn [fst snd].
    erewrite map_ext_in; [exact Hnd|].
    intros kv Hkv; symmetry; apply (Hok kv Hkv).
  - intros t category Hin Hcat Hname Hc.
    assert (Ht : truthy_string (normalizeMerchant (description t)) = true).
    { unfold truthy_string.
      destruct (normalizeMerchant (description t)); [congruence | reflexivity]. }
    assert (Hhas := Hcov t category
                      (proj2 (filter_In _ _ _) (conj Hin Hcat)) Ht Hc).
    apply map_has_iff, in_map_iff in Hhas as (kv & Hk & Hkv).
    destruct (group_ok_pattern now _ kv (Hok kv Hkv)) as (p & Hp & Hpair).
    exists p; split.
    + unfold mine; apply in_flat_map; exists kv; split; [exact Hkv|].
      rewrite Hp; left; reflexivity.
    + destruct (Hok kv Hkv) as (Hkey & _).
      rewrite Hkey in Hk; apply group_key_inj in Hk as [E1 E2].
      rewrite Hpair, E1, E2; reflexivity.
Qed.

(** X20. Mining a list that has no categorized transaction (every
    transaction lacks a category, is split or awaits review) yields no
    pattern and writes nothing: the store is unchanged and the loaded
    patterns are those of the store. *)
Theorem mining_nothing (now : string) (l : list Transaction) (e : Engine) :
  (forall t, In t l -> is_categorized t = false) ->
  fst (minePatterns now l e) = []
  /\ db (snd (minePatterns now l e)) = db e
  /\ patterns (snd (minePatterns now l e)) = stored_patterns (db e)
  /\ confidenceThreshold (snd (minePatterns now l e))
     = confidenceThreshold e.
Proof.
  intros H; unfold minePatterns, mine.
  rewrite (filter_none is_categorized l H); cbn.
  repeat split.
Qed.

Lemma mining_nothing_witness :
  fst (minePatterns Sample.now [Sample.incoming; Sample.pending]
                    Sample.loaded) = [].
Proof.
  apply (mining_nothing Sample.now [Sample.incoming; Sample.pending]
                        Sample.loaded).
  intros t [<- | [<- | []]]; reflexivity.
Defined.

Lemma mined_patterns_distinct_witness :
  exists p, In p (mine Sample.now Sample.history)
            /\ mined_pair p = ("Walmart"%string, Sample.groceries).
Proof.
  destruct (mined_patterns_distinct Sample.now Sample.history) as [_ H].
  destruct (H (Sample.walmart 1 (Sample.on 2024 1 5) (-40)) Sample.groceries)
    as (p & Hin & Hp).
  - left; reflexivity.
  - reflexivity.
  - vm_compute; discriminate.
  - reflexivity.
  - exists p; split; [exact Hin|].
    rewrite Hp; vm_compute; reflexivity.
Defined.

(** ** The store after a merge *)

Lemma same_pair_iff (np : MinedPattern) (p : Pattern) :
  same_pair np p = true <-> pair_of p = mined_pair np.
Proof.
  unfold same_pair, pair_of, mined_pair.
  rewrite andb_true_iff, String.eqb_eq, Z.eqb_eq.
  split; [intros [-> ->]; reflexivity | intros [= -> ->]; auto].
Qed.

Lemma existsb_same_pair (np : MinedPattern) (l : list Pattern) :
  existsb (same_pair np) l = true <-> In (mined_pair np) (map pair_of l).
Proof.
  rewrite existsb_exists, in_map_iff; split.
  - intros (p & Hp & E); exists p; split; [apply same_pair_iff, E | exact Hp].
  - intros (p & E & Hp); exists p; split; [exact Hp | apply same_pair_iff, E].
Qed.

Lemma existsb_same_pair_ext (np : MinedPattern) (l1 l2 : list Pattern) :
  map pair_of l1 = map pair_of l2 ->
  existsb (same_pair np) l1 = existsb (same_pair np) l2.
Proof.
  intros H; apply Bool.eq_iff_eq_true.
  rewrite !existsb_same_pair, H; reflexivity.
Qed.

Lemma fresh_ext (news : list MinedPattern) (l1 l2 : list Pattern) :
  map pair_of l1 = map pair_of l2 -> fresh news l1 = fresh news l2.
Proof.
  intros H; unfold fresh; apply filter_ext; intros np.
  rewrite (existsb_same_pair_ext np l1 l2 H); reflexivity.
Qed.

(** Writing a changed copy of a found record under its key changes that
    record only, when keys are distinct. *)
Lemma put_found {A : Type} (key : A -> Z) (f : A -> bool) (l : list A)
      (x x' : A) :
  NoDup (map key l) -> find f l = Some x -> key x' = key x ->
  map (fun y => if (key y =? key x')%Z then x' else y) l
  = replace_first f (fun _ => x') l.
Proof.
  intros Hnd Hfind Hkey; rewrite Hkey.
  induction l as [|y l IH]; [discriminate|].
  cbn [map replace_first find] in *.
  inversion Hnd as [|? ? Hy Hnd']; subst.
  assert (Hother : forall z, In z l -> (key z =? key y)%Z = false).
  { intros z Hz; apply Z.eqb_neq; intros E; apply Hy; rewrite <- E.
    apply in_map, Hz. }
  destruct (f y).
  - injection Hfind as ->; rewrite Z.eqb_refl; f_equal.
    rewrite <- (map_id l) at 2; apply map_ext_in; intros z Hz.
    rewrite (Hother z Hz); reflexivity.
  - assert (Hx : In x l) by (apply (find_some _ _ Hfind)).
    rewrite Z.eqb_sym, (Hother x Hx); f_equal; apply IH; assumption.
Qed.

Lemma put_elsewhere {A : Type} (key : A -> Z) (l : list A) (x' : A) :
  ~ In (key x') (map key l) ->
  map (fun y => if (key y =? key x')%Z then x' else y) l = l.
Proof.
  intros H; rewrite <- (map_id l) at 2; apply map_ext_in; intros z Hz.
  destruct (Z.eqb_spec (key z) (key x')) as [E|_]; [|reflexivity].
  exfalso; apply H; rewrite <- E; apply in_map, Hz.
Qed.

Lemma map_replace_found {A B : Type} (key : A -> B) (f : A -> bool)
      (l : list A) (x x' : A) :
  find f l = Some x -> key x' = key x ->
  map key (replace_first f (fun _ => x') l) = map key l.
Proof.
  intros Hfind Hkey; induction l as [|y l IH]; [reflexivity|].
  cbn [find replace_first map] in *.
  destruct (f y); cbn [map].
  - injection Hfind as ->; rewrite Hkey; reflexivity.
  - rewrite (IH Hfind); reflexivity.
Qed.

Lemma merged_with_skip (np : MinedPattern) (rest : list MinedPattern)
      (q : Pattern) :
  same_pair np q = false ->
  merged_with (np :: rest) q = merged_with rest q.
Proof. intros H; unfold merged_with; cbn [find]; rewrite H; reflexivity. Qed.

Lemma merged_with_none (news : list MinedPattern) (q : Pattern) :
  ~ In (pair_of q) (map mined_pair news) -> merged_with news q = q.
Proof.
  intros H; unfold merged_with.
  destruct (find (fun np => same_pair np q) news) as [np|] eqn:F;
    [|reflexivity].
  apply find_some in F as [Hin E]; apply same_pair_iff in E.
  exfalso; apply H; rewrite E; apply in_map, Hin.
Qed.

Lemma NoDup_app_apart {A : Type} (l1 l2 : list A) (a : A) :
  NoDup (l1 ++ l2) -> In a l1 -> ~ In a l2.
Proof.
  induction l1 as [|x l1 IH]; cbn; intros Hnd Hin; [destruct Hin|].
  inversion Hnd as [|? ? Hx Hnd']; subst.
  destruct Hin as [-> | Hin]; [|apply IH; assumption].
  intros H; apply Hx, in_or_app; right; exact H.
Qed.

Lemma updatePattern_found (db : Store) (ex added : list Pattern)
      (np : MinedPattern) (existing : Pattern) :
  stored_patterns db = (ex ++ added)%list ->
  NoDup (map p_id (ex ++ added)) ->
  find (same_pair np) ex = Some existing ->
  stored_patterns (updatePattern (merge_existing existing np) db)
  = (replace_first (same_pair np) (fun _ => merge_existing existing np) ex
     ++ added)%list.
Proof.
  intros Hdb Hnd Hfind; cbn [updatePattern stored_patterns]; unfold put.
  rewrite Hdb.
  assert (Hin : In existing ex) by (apply (find_some _ _ Hfind)).
  assert (Hex : existsb (fun y => (p_id y =? p_id (merge_existing existing np))%Z)
                        (ex ++ added) = true).
  { apply existsb_exists; exists existing; split;
      [apply in_or_app; left; exact Hin | apply Z.eqb_refl]. }
  rewrite Hex, map_app; rewrite map_app in Hnd.
  f_equal.
  - apply (put_found p_id (same_pair np) ex existing);
      [apply (NoDup_app_remove_r _ _ Hnd) | exact Hfind | reflexivity].
  - apply put_elsewhere; cbn [merge_existing p_id].
    apply (NoDup_app_apart _ _ _ Hnd), in_map, Hin.
Qed.

Lemma merge_loop_closed (news : list MinedPattern) :
  forall (ex added : list Pattern) (db : Store),
    stored_patterns db = (ex ++ added)%list ->
    NoDup (map p_id (ex ++ added)) ->
    (forall p, In p (ex ++ added) -> (p_id p < next_pattern_id db)%Z) ->
    NoDup (map pair_of ex) ->
    NoDup (map mined_pair news) ->
    stored_patterns (merge_loop news ex db)
    = (map (merged_with news) ex ++ added
       ++ numbered (next_pattern_id db) (fresh news ex))%list
    /\ next_pattern_id (merge_loop news ex db)
       = (next_pattern_id db + Z.of_nat (length (fresh news ex)))%Z
    /\ stored_transactions (merge_loop news ex db) = stored_transactions db.
Proof.
  induction news as [|np rest IH]; intros ex added db Hdb Hid Hlt Hpair Hnews.
  - cbn [merge_loop fresh filter numbered length].
    rewrite app_nil_r, Hdb, Z.add_0_r; repeat split.
    f_equal; rewrite <- (map_id ex) at 1; apply map_ext; reflexivity.
  - inversion Hnews as [|? ? Hnp Hrest]; subst; cbn [merge_loop].
    destruct (find (same_pair np) ex) as [existing|] eqn:F.
    + set (existing' := merge_existing existing np).
      set (ex1 := replace_first (same_pair np) (fun _ => existing') ex).
      destruct (find_replace_first (same_pair np) (fun _ => existing')
                                   ex existing F)
        as (before & after & Hex & Hbefore & Hsame & Hex1).
      fold ex1 in Hex1.
      assert (Hids : map p_id ex1 = map p_id ex)
        by (apply (map_replace_found p_id _ _ existing); auto).
      assert (Hpairs : map pair_of ex1 = map pair_of ex)
        by (apply (map_replace_found pair_of _ _ existing); auto).
      destruct (IH ex1 added (updatePattern existing' db)) as (Hs & Hn & Ht).
      * apply updatePattern_found; assumption.
      * rewrite map_app, Hids, <- map_app; exact Hid.
      * intros p Hp; cbn [updatePattern next_pattern_id].
        assert (Hp' : In (p_id p) (map p_id (ex1 ++ added)))
          by (apply in_map, Hp).
        rewrite map_app, Hids, <- map_app in Hp'.
        apply in_map_iff in Hp' as (q & <- & Hq); apply Hlt, Hq.
      * rewrite Hpairs; exact Hpair.
      * exact Hrest.
      * cbn [updatePattern next_pattern_id stored_transactions] in Hn, Ht, Hs.
        assert (Hfresh : fresh (np :: rest) ex = fresh rest ex1).
        { unfold fresh at 1; cbn [filter].
          assert (E : existsb (same_pair np) ex = true).
          { apply existsb_exists; exists existing; split; [|exact Hsame].
            apply (find_some _ _ F). }
          rewrite E; cbn [negb]; symmetry; apply fresh_ext, Hpairs. }
        rewrite Hfresh; split; [|split; assumption].
        rewrite Hs; f_equal.
        rewrite Hex1, Hex, !map_app; cbn [map].
        rewrite Hex, map_app in Hpair; cbn [map] in Hpair.
        apply same_pair_iff in Hsame.
        f_equal; [|f_equal].
        -- apply map_ext_in; intros q Hq; symmetry.
           apply merged_with_skip, Hbefore, Hq.
        -- unfold merged_with at 2; cbn [find].
           rewrite (proj2 (same_pair_iff np existing) Hsame).
           apply merged_with_none.
           change (pair_of (merge_existing existing np))
             with (pair_of existing).
           rewrite Hsame; exact Hnp.
        -- apply map_ext_in; intros q Hq; symmetry.
           apply merged_with_skip.
           destruct (same_pair np q) eqn:E; [|reflexivity].
           apply same_pair_iff in E; exfalso.
           apply NoDup_app_remove_l in Hpair.
           inversion Hpair as [|? ? Hx _]; subst; apply Hx.
           rewrite Hsame, <- E; apply in_map, Hq.
    + assert (Hnone : forall q, In q ex -> same_pair np q = false)
        by (apply find_none_iff, F).
      assert (Hdb1 : stored_patterns (snd (addPattern np db))
                     = (ex ++ added ++ [with_id (next_pattern_id db) np])%list)
        by (cbn [addPattern snd stored_patterns];
            rewrite Hdb, app_assoc; reflexivity).
      assert (Hn1 : next_pattern_id (snd (addPattern np db))
                    = (next_pattern_id db + 1)%Z) by reflexivity.
      assert (Ht1 : stored_transactions (snd (addPattern np db))
                    = stored_transactions db) by reflexivity.
      remember (snd (addPattern np db)) as db1 eqn:Edb1; clear Edb1.
      destruct (IH ex (added ++ [with_id (next_pattern_id db) np])%list db1)
        as (Hs & Hn & Ht).
      * exact Hdb1.
      * rewrite app_assoc, map_app; cbn [map with_id p_id].
        apply NoDup_app; [exact Hid | repeat constructor; intros [] |].
        intros k Hk [<- | []].
        apply in_map_iff in Hk as (q & E & Hq).
        specialize (Hlt q Hq); lia.
      * intros p Hp; rewrite Hn1.
        rewrite app_assoc in Hp; apply in_app_or in Hp as [Hp | [<- | []]];
          [specialize (Hlt p Hp); lia | cbn; lia].
      * exact Hpair.
      * exact Hrest.
      * assert (Hfresh : fresh (np :: rest) ex = np :: fresh rest ex).
        { unfold fresh at 1; cbn [filter].
          assert (E : existsb (same_pair np) ex = false).
          { destruct (existsb (same_pair np) ex) eqn:E; [|reflexivity].
            apply existsb_exists in E as (q & Hq & E).
            rewrite (Hnone q Hq) in E; discriminate. }
          rewrite E; reflexivity. }
        rewrite Hfresh; cbn [numbered length].
        split; [|split; [rewrite Hn, Hn1; lia | rewrite Ht; exact Ht1]].
        rewrite Hs, Hn1, <- !app_assoc; cbn [app]; f_equal.
        apply map_ext_in; intros q Hq; symmetry.
        apply merged_with_skip, Hnone, Hq.
Qed.

Lemma mine_pairs_distinct (now : string) (l : list Transaction) :
  NoDup (map mined_pair (mine now l)).
Proof.
  destruct (mined_groups l) as (Hnd & Hok & _).
  rewrite mine_pairs.
  apply (NoDup_map_inv (fun nc => group_key (fst nc) (snd nc))).
  rewrite map_map; cbn [fst snd].
  erewrite map_ext_in; [exact Hnd|].
  intros kv Hkv; symmetry; apply (Hok kv Hkv).
Qed.

Lemma merge_closed (newPatterns : list MinedPattern) (db : Store) :
  well_keyed db ->
  NoDup (map mined_pair newPatterns) ->
  stored_patterns (updatePatternsInDatabase newPatterns db)
  = (map (merged_with newPatterns) (stored_patterns db)
     ++ numbered (next_pattern_id db)
                 (fresh newPatterns (stored_patterns db)))%list
  /\ next_pattern_id (updatePatternsInDatabase newPatterns db)
     = (next_pattern_id db
        + Z.of_nat (length (fresh newPatterns (stored_patterns db))))%Z
  /\ stored_transactions (updatePatternsInDatabase newPatterns db)
     = stored_transactions db.
Proof.
  intros (Hid & Hlt & Hpair) Hnews.
  unfold updatePatternsInDatabase, getPatterns.
  destruct (merge_loop_closed newPatterns (stored_patterns db) [] db)
    as (Hs & Hn & Ht); rewrite ?app_nil_r; auto.
Qed.

(** X21. What a merge leaves in a store whose keys and identifying pairs
    are distinct, for mined patterns with distinct pairs (as mining
    yields them): every stored pattern stays in place, merged with the
    mined pattern of its merchant and category if there is one; the mined
    patterns without a stored counterpart follow, in mining order, under
    the next keys; the stored transactions are untouched. *)
Theorem updatePatternsInDatabase_closed
        (newPatterns : list MinedPattern) (db : Store) :
  well_keyed db ->
  NoDup (map mined_pair newPatterns) ->
  let db' := updatePatternsInDatabase newPatterns db in
  let added := fresh newPatterns (stored_patterns db) in
  stored_patterns db'
  = (map (merged_with newPatterns) (stored_patterns db)
     ++ numbered (next_pattern_id db) added)%list
  /\ next_pattern_id db'
     = (next_pattern_id db + Z.of_nat (length added))%Z
  /\ stored_transactions db' = stored_transactions db.
Proof. exact (merge_closed newPatterns db). Qed.

Lemma updatePatternsInDatabase_closed_witness :
  stored_patterns
    (updatePatternsInDatabase
       [Sample.mined] (Sample.store_with [Sample.strong; Sample.rejected]))
  = [merge_existing Sample.strong Sample.mined; Sample.rejected].
Proof.
  destruct (updatePatternsInDatabase_closed
              [Sample.mined]
              (Sample.store_with [Sample.strong; Sample.rejected]))
    as (H & _).
  - split; [|split].
    + repeat constructor; [intros [H | []]; discriminate | intros []].
    + intros p [<- | [<- | []]]; reflexivity.
    + repeat constructor; [intros [H | []]; discriminate | intros []].
  - repeat constructor; intros [].
  - rewrite H; vm_compute; reflexivity.
Defined.

(** ** The store across minings *)

Lemma merged_with_kept (news : list MinedPattern) (p : Pattern) :
  kept p (merged_with news p).
Proof.
  unfold merged_with; destruct (find _ news); repeat split.
Qed.

Lemma numbered_ids (nps : list MinedPattern) (i : Z) :
  NoDup (map p_id (numbered i nps))
  /\ (forall p, In p (numbered i nps) ->
                (i <= p_id p < i + Z.of_nat (length nps))%Z)
  /\ map pair_of (numbered i nps) = map mined_pair nps.
Proof.
  revert i; induction nps as [|np nps IH]; intros i; cbn [numbered map length].
  - split; [constructor|]; split; [intros p [] | reflexivity].
  - destruct (IH (i + 1)%Z) as (Hnd & Hrange & Hpairs).
    split; [|split].
    + constructor; [|exact Hnd].
      intros H; apply in_map_iff in H as (q & E & Hq).
      apply Hrange in Hq; cbn [with_id p_id] in E; lia.
    + intros p [<- | Hp]; [cbn; lia | apply Hrange in Hp; lia].
    + rewrite Hpairs; reflexivity.
Qed.

Lemma NoDup_map_filter {A B : Type} (f : A -> B) (g : A -> bool)
      (l : list A) :
  NoDup (map f l) -> NoDup (map f (filter g l)).
Proof.
  induction l as [|x l IH]; cbn; intros H; [constructor|].
  inversion H as [|? ? Hx Hnd]; subst.
  destruct (g x); cbn; [|apply IH, Hnd].
  constructor; [|apply IH, Hnd].
  intros Hin; apply Hx.
  apply in_map_iff in Hin as (y & E & Hy); apply filter_In in Hy as [Hy _].
  rewrite <- E; apply in_map, Hy.
Qed.

Lemma merge_keeps_keyed (news : list MinedPattern) (db : Store) :
  well_keyed db -> NoDup (map mined_pair news) ->
  well_keyed (updatePatternsInDatabase news db).
Proof.
  intros Hwk Hnews.
  destruct (merge_closed news db Hwk Hnews) as (Hs & Hn & _).
  destruct Hwk as (Hid & Hlt & Hpair).
  set (F := fresh news (stored_patterns db)) in *.
  destruct (numbered_ids F (next_pattern_id db)) as (Hnid & Hrange & Hnp).
  assert (Hids : map p_id (map (merged_with news) (stored_patterns db))
                 = map p_id (stored_patterns db)).
  { rewrite map_map; apply map_ext; intros p; apply merged_with_kept. }
  assert (Hpairs : map pair_of (map (merged_with news) (stored_patterns db))
                   = map pair_of (stored_patterns db)).
  { rewrite map_map; apply map_ext; intros p.
    destruct (merged_with_kept news p) as (_ & E1 & E2 & _).
    unfold pair_of; rewrite E1, E2; reflexivity. }
  unfold well_keyed; rewrite Hs, Hn, !map_app, Hids, Hpairs, Hnp.
  split; [|split].
  - apply NoDup_app; [exact Hid | exact Hnid|].
    intros k Hk Hk'.
    apply in_map_iff in Hk as (p & <- & Hp).
    apply in_map_iff in Hk' as (q & E & Hq).
    specialize (Hlt p Hp); apply Hrange in Hq; lia.
  - intros p Hp; apply in_app_or in Hp as [Hp | Hp].
    + apply in_map_iff in Hp as (q & <- & Hq).
      destruct (merged_with_kept news q) as (E & _); rewrite E.
      specialize (Hlt q Hq); lia.
    + apply Hrange in Hp; lia.
  - apply NoDup_app; [exact Hpair | apply NoDup_map_filter, Hnews|].
    intros pr Hpr Hpr'.
    apply in_map_iff in Hpr' as (np & <- & Hnp').
    apply filter_In in Hnp' as [_ E].
    apply negb_true_iff in E.
    apply existsb_same_pair in Hpr; congruence.
Qed.

(** X22. Mining never duplicates a pattern: if the keys of the store are
    distinct and below the next key and no two stored patterns share
    merchant and category, the same holds after [minePatterns]. *)
Theorem minePatterns_keeps_store_keyed
        (now : string) (l : list Transaction) (e : Engine) :
  well_keyed (db e) -> well_keyed (db (snd (minePatterns now l e))).
Proof.
  intros H; unfold minePatterns; cbn [snd db].
  apply merge_keeps_keyed; [exact H | apply mine_pairs_distinct].
Qed.

Lemma minePatterns_keeps_store_keyed_witness :
  well_keyed (db (snd (minePatterns Sample.now Sample.history Sample.loaded))).
Proof.
  apply minePatterns_keeps_store_keyed.
  split; [|split].
  - repeat constructor; [intros [H | []]; discriminate | intros []].
  - intros p [<- | [<- | []]]; reflexivity.
  - repeat constructor; [intros [H | []]; discriminate | intros []].
Defined.

(** X23. Mining never deletes a pattern and never touches feedback: in a
    store with distinct keys and pairs, every stored pattern is found
    after [minePatterns] at the same place with the same id, merchant,
    category, [acceptCount] and [denyCount]; new patterns are appended. *)
Theorem minePatterns_keeps_feedback
        (now : string) (l : list Transaction) (e : Engine) :
  well_keyed (db e) ->
  exists before added,
    stored_patterns (db (snd (minePatterns now l e)))
    = (before ++ added)%list
    /\ Forall2 kept (stored_patterns (db e)) before
    /\ patterns (snd (minePatterns now l e)) = (before ++ added)%list.
Proof.
  intros H; unfold minePatterns; cbn [snd db patterns getPatterns].
  destruct (merge_closed (mine now l) (db e) H (mine_pairs_distinct now l))
    as (Hs & _).
  exists (map (merged_with (mine now l)) (stored_patterns (db e))),
    (numbered (next_pattern_id (db e))
              (fresh (mine now l) (stored_patterns (db e)))).
  unfold getPatterns; rewrite Hs; repeat split.
  clear Hs H.
  induction (stored_patterns (db e)) as [|p ps IH]; cbn [map];
    [constructor | constructor; [apply merged_with_kept | exact IH]].
Qed.

Lemma minePatterns_keeps_feedback_witness :
  exists before added,
    stored_patterns
      (db (snd (minePatterns Sample.now Sample.history Sample.loaded)))
    = (before ++ added)%list
    /\ Forall2 kept (stored_patterns (db Sample.loaded)) before
    /\ patterns (snd (minePatterns Sample.now Sample.history Sample.loaded))
       = (before ++ added)%list.
Proof.
  apply minePatterns_keeps_feedback.
  split; [|split].
  - repeat constructor; [intros [H | []]; discriminate | intros []].
  - intros p [<- | [<- | []]]; reflexivity.
  - repeat constructor; [intros [H | []]; discriminate | intros []].
Defined.

(** ** Mining again *)

Lemma to_pattern_relast (now now' : string) (data : GroupData) :
  to_pattern now' data = option_map (relast now') (to_pattern now data).
Proof.
  unfold to_pattern.
  destruct (sort Qle_bool (amounts data)); [reflexivity|].
  destruct (transactions data); reflexivity.
Qed.

Lemma mine_relast (now now' : string) (l : list Transaction) :
  mine now' l = map (relast now') (mine now l).
Proof.
  unfold mine.
  induction (fold_left collect (filter is_categorized l) []) as [|kv m IH];
    [reflexivity|].
  cbn [flat_map]; rewrite map_app, IH, (to_pattern_relast now now').
  destruct (to_pattern now (snd kv)); reflexivity.
Qed.

Lemma find_relast (now' : string) (p : Pattern) (news : list MinedPattern) :
  find (fun np => same_pair np p) (map (relast now') news)
  = option_map (relast now') (find (fun np => same_pair np p) news).
Proof.
  induction news as [|np news IH]; [reflexivity|].
  cbn [map find].
  change (same_pair (relast now' np) p) with (same_pair np p).
  destruct (same_pair np p); [reflexivity | exact IH].
Qed.

Lemma find_same_pair (news : list MinedPattern) (np : MinedPattern)
      (p : Pattern) :
  NoDup (map mined_pair news) -> In np news ->
  pair_of p = mined_pair np ->
  find (fun np' => same_pair np' p) news = Some np.
Proof.
  intros Hnd Hin Hp; induction news as [|x news IH]; [destruct Hin|].
  cbn [map find] in *; inversion Hnd as [|? ? Hx Hnd']; subst.
  destruct (same_pair x p) eqn:E.
  - destruct Hin as [-> | Hin]; [reflexivity|].
    apply same_pair_iff in E; exfalso; apply Hx.
    rewrite <- E, Hp; apply in_map, Hin.
  - destruct Hin as [-> | Hin]; [|apply IH; assumption].
    apply same_pair_iff in Hp; congruence.
Qed.

Lemma merged_min_again (old : option Q) (n : Q) :
  (merged_min (Some (merged_min old n)) n == merged_min old n)%Q.
Proof.
  assert (Hself : forall x, (merged_min (Some x) x == x)%Q).
  { intros x; cbn; destruct (truthy_Q x); [apply Q.min_id | reflexivity]. }
  destruct old as [o|]; [|apply Hself].
  cbn [merged_min]; destruct (truthy_Q o) eqn:Eo; [|apply Hself].
  apply truthy_Q_iff in Eo.
  destruct (truthy_Q (Qmin o n)) eqn:Em.
  - apply Q.min_l, Q.le_min_r.
  - unfold truthy_Q in Em; apply negb_false_iff, Qeq_bool_iff in Em.
    destruct (Q.min_spec o n) as [[_ E] | [_ E]].
    + exfalso; apply Eo; rewrite <- E; exact Em.
    + symmetry; exact E.
Qed.

Lemma merged_max_again (old : option Q) (n : Q) :
  (merged_max (Some (merged_max old n)) n == merged_max old n)%Q.
Proof.
  destruct (merged_max_upper old n) as [Hn _].
  set (m := merged_max old n) in *.
  cbn [merged_max]; destruct (truthy_Q m) eqn:Em.
  - apply Q.max_l, Hn.
  - unfold truthy_Q in Em; apply negb_false_iff, Qeq_bool_iff in Em.
    rewrite Em in *; apply Q.max_l, Hn.
Qed.

Lemma merged_max_self (x : Q) : (merged_max (Some x) x == x)%Q.
Proof.
  cbn; destruct (truthy_Q x) eqn:E; [apply Q.max_id|].
  unfold truthy_Q in E; apply negb_false_iff, Qeq_bool_iff in E.
  rewrite E; reflexivity.
Qed.

Lemma merged_min_self (x : Q) : (merged_min (Some x) x == x)%Q.
Proof. cbn; destruct (truthy_Q x); [apply Q.min_id | reflexivity]. Qed.

Lemma bound_eq_refl (a : option Q) : bound_eq a a.
Proof. destruct a; cbn; [reflexivity | exact I]. Qed.

Lemma same_pattern_refl (p : Pattern) : same_pattern p p.
Proof. repeat split; apply bound_eq_refl. Qed.

(** Merging the mined pattern of a group a second time changes nothing
    but [lastSeen]. *)
Lemma merge_again (now' : string) (p0 : Pattern) (np : MinedPattern) :
  same_pattern (merge_existing p0 np)
               (merge_existing (merge_existing p0 np) (relast now' np)).
Proof.
  repeat split; cbn; symmetry;
    [apply merged_min_again | apply merged_max_again].
Qed.

Lemma merge_after_add (now' : string) (i : Z) (np : MinedPattern) :
  same_pattern (with_id i np) (merge_existing (with_id i np) (relast now' np)).
Proof.
  repeat split; cbn [bound_eq with_id merge_existing relast amountMin amountMax
                     m_amountMin m_amountMax]; symmetry;
    [apply merged_min_self | apply merged_max_self].
Qed.

Lemma In_numbered (nps : list MinedPattern) (i : Z) (p : Pattern) :
  In p (numbered i nps) -> exists k np, In np nps /\ p = with_id k np.
Proof.
  revert i; induction nps as [|np nps IH]; intros i; cbn; [intros []|].
  intros [<- | H]; [exists i, np; auto|].
  destruct (IH _ H) as (k & np' & Hin & E); exists k, np'; auto.
Qed.

Lemma mined_again (now now' : string) (l : list Transaction) (db0 : Store) :
  well_keyed db0 ->
  let db1 := updatePatternsInDatabase (mine now l) db0 in
  let db2 := updatePatternsInDatabase (mine now' l) db1 in
  Forall2 same_pattern (stored_patterns db1) (stored_patterns db2)
  /\ next_pattern_id db2 = next_pattern_id db1.
Proof.
  intros Hwk; cbv zeta.
  set (N := mine now l).
  assert (HN : NoDup (map mined_pair N)) by apply mine_pairs_distinct.
  assert (HN' : NoDup (map mined_pair (mine now' l)))
    by apply mine_pairs_distinct.
  destruct (merge_closed N db0 Hwk HN) as (Hs1 & _).
  pose proof (merge_keeps_keyed N db0 Hwk HN) as Hwk1.
  destruct (merge_closed (mine now' l) _ Hwk1 HN') as (Hs2 & Hn2 & _).
  set (db1 := updatePatternsInDatabase N db0) in *.
  rewrite (mine_relast now now') in *; fold N in Hs2, Hn2 |- *.
  set (S0 := stored_patterns db0) in *.
  (* every pattern of the store comes from the first mining or predates it *)
  assert (Hcase : forall p, In p (stored_patterns db1) ->
            forall np, In np N -> pair_of p = mined_pair np ->
            (exists p0, p = merge_existing p0 np)
            \/ (exists k, p = with_id k np)).
  { intros p Hp np Hnp Hpair; rewrite Hs1 in Hp.
    apply in_app_or in Hp as [Hp | Hp].
    - left; apply in_map_iff in Hp as (p0 & <- & Hp0).
      exists p0; unfold merged_with.
      assert (Hp0' : pair_of p0 = mined_pair np).
      { rewrite <- Hpair.
        destruct (merged_with_kept N p0) as (_ & E1 & E2 & _).
        unfold pair_of; rewrite E1, E2; reflexivity. }
      rewrite (find_same_pair N np p0 HN Hnp Hp0'); reflexivity.
    - right; apply In_numbered in Hp as (k & np0 & Hin & ->).
      exists k; f_equal.
      apply filter_In in Hin as [Hin _].
      change (pair_of (with_id k np0)) with (mined_pair np0) in Hpair.
      clear - HN Hnp Hin Hpair.
      induction N as [|x N IH]; [destruct Hin|].
      cbn [map] in HN; inversion HN as [|? ? Hx HN']; subst.
      destruct Hin as [-> | Hin], Hnp as [-> | Hnp]; auto.
      + exfalso; apply Hx; rewrite Hpair; apply in_map, Hnp.
      + exfalso; apply Hx; rewrite <- Hpair; apply in_map, Hin. }
  assert (Hsame : forall p, In p (stored_patterns db1) ->
            same_pattern p (merged_with (map (relast now') N) p)).
  { intros p Hp; unfold merged_with; rewrite find_relast.
    destruct (find (fun np => same_pair np p) N) as [np|] eqn:F;
      cbn [option_map]; [|apply same_pattern_refl].
    apply find_some in F as [Hnp E]; apply same_pair_iff in E.
    destruct (Hcase p Hp np Hnp E) as [[p0 ->] | [k ->]];
      [apply merge_again | apply merge_after_add]. }
  assert (Hfresh : fresh (map (relast now') N) (stored_patterns db1) = []).
  { unfold fresh; apply filter_none; intros np' Hnp'.
    apply in_map_iff in Hnp' as (np & <- & Hnp).
    apply negb_false_iff, existsb_same_pair.
    change (mined_pair (relast now' np)) with (mined_pair np).
    rewrite Hs1, map_app; apply in_or_app.
    destruct (existsb (same_pair np) S0) eqn:E.
    - left; apply existsb_same_pair in E.
      rewrite map_map.
      apply in_map_iff in E as (p0 & E & Hp0).
      apply in_map_iff; exists p0; split; [|exact Hp0].
      destruct (merged_with_kept N p0) as (_ & E1 & E2 & _).
      rewrite <- E; unfold pair_of; rewrite E1, E2; reflexivity.
    - right.
      destruct (numbered_ids (fresh N S0) (next_pattern_id db0))
        as (_ & _ & Hpairs).
      rewrite Hpairs; apply in_map, filter_In; split; [exact Hnp|].
      rewrite E; reflexivity. }
  rewrite Hfresh in Hs2, Hn2; cbn [numbered length] in Hs2, Hn2.
  rewrite app_nil_r in Hs2; rewrite Z.add_0_r in Hn2.
  split; [|exact Hn2].
  rewrite Hs2; clear - Hsame.
  induction (stored_patterns db1) as [|p ps IH]; cbn [map];
    [constructor | constructor].
  - apply Hsame; left; reflexivity.
  - apply IH; intros q Hq; apply Hsame; right; exact Hq.
Qed.

(** X24. Mining is idempotent: in a store with distinct keys and pairs,
    mining the same transactions a second time adds no pattern and leaves
    every stored pattern as the first mining left it, but for [lastSeen]
    (the bounds being equal as numbers). *)
Theorem mining_idempotent
        (now now' : string) (l : list Transaction) (e : Engine) :
  well_keyed (db e) ->
  let e1 := snd (minePatterns now l e) in
  let e2 := snd (minePatterns now' l e1) in
  Forall2 same_pattern (stored_patterns (db e1)) (stored_patterns (db e2))
  /\ Forall2 same_pattern (patterns e1) (patterns e2)
  /\ next_pattern_id (db e2) = next_pattern_id (db e1).
Proof.
  intros H; cbv zeta; unfold minePatterns; cbn [snd db patterns getPatterns].
  destruct (mined_again now now' l (db e) H) as [H1 H2].
  unfold getPatterns; repeat split; assumption.
Qed.

Lemma mining_idempotent_witness :
  next_pattern_id
    (db (snd (minePatterns Sample.now Sample.history
                (snd (minePatterns Sample.now Sample.history
                                   Sample.loaded)))))
  = next_pattern_id
      (db (snd (minePatterns Sample.now Sample.history Sample.loaded))).
Proof.
  apply (mining_idempotent Sample.now Sample.now Sample.history Sample.loaded).
  split; [|split].
  - repeat constructor; [intros [H | []]; discriminate | intros []].
  - intros p [<- | [<- | []]]; reflexivity.
  - repeat constructor; [intros [H | []]; discriminate | intros []].
Defined.

(** ** The threshold *)

Lemma threshold_le (lo hi : Q) :
  (lo <= hi)%Q -> (Qmax 0 (Qmin 100 lo) <= Qmax 0 (Qmin 100 hi))%Q.
Proof.
  intros H; apply Q.max_le_compat_l, Q.min_le_compat_l, H.
Qed.

(** X25. Lowering the threshold never loses a match: a match returned
    under the threshold [hi] is returned, the same, under any threshold
    [lo <= hi]; and its confidence is at least [hi], or 100 where [hi] is
    above 100. *)
Theorem threshold_monotone
        (lo hi : Q) (e : Engine) (t : Transaction) (m : Match) :
  (lo <= hi)%Q ->
  findBestMatch (setConfidenceThreshold hi e) t = Some m ->
  findBestMatch (setConfidenceThreshold lo e) t = Some m
  /\ (Qmin 100 hi <= confidence m)%Q.
Proof.
  intros Hle H; split.
  - revert H; unfold findBestMatch, setConfidenceThreshold;
      cbn [patterns confidenceThreshold].
    destruct (negb (truthy_string (normalizeMerchant (description t))));
      [discriminate|].
    destruct (scan t (patterns e)) as [[b|] c]; [|discriminate].
    destruct (Qle_bool (Qmax 0 (Qmin 100 hi)) c) eqn:E; [|discriminate].
    intros H; apply Qle_bool_iff in E.
    assert (E' : Qle_bool (Qmax 0 (Qmin 100 lo)) c = true).
    { apply Qle_bool_iff; eapply Qle_trans; [apply threshold_le, Hle|exact E]. }
    rewrite E'; exact H.
  - destruct (findBestMatch_some _ t m H) as (_ & _ & _ & Hc & _).
    cbn [setConfidenceThreshold confidenceThreshold] in Hc.
    eapply Qle_trans; [apply Q.le_max_r | exact Hc].
Qed.

Lemma threshold_monotone_witness :
  findBestMatch (setConfidenceThreshold 0 Sample.loaded) Sample.incoming
  = Some (match_of Sample.incoming Sample.strong).
Proof.
  apply (threshold_monotone 0 70 Sample.loaded Sample.incoming).
  - vm_compute; discriminate.
  - vm_compute; reflexivity.
Defined.

(** ** The order of the history *)

(** X26. Detection does not depend on the order of the history: the same
    transactions listed in another order give the same result. *)
Theorem detectRecurringPattern_any_order
        (transaction : Transaction) (l l' : list Transaction) :
  Permutation l l' ->
  detectRecurringPattern transaction l = detectRecurringPattern transaction l'.
Proof. exact (detectRecurringPattern_perm transaction l l'). Qed.

Lemma detectRecurringPattern_any_order_witness :
  detectRecurringPattern Sample.first_of_month Sample.group
  = detectRecurringPattern Sample.first_of_month (rev Sample.group).
Proof.
  apply (detectRecurringPattern_any_order Sample.first_of_month Sample.group
           (rev Sample.group)).
  apply Permutation_rev.
Defined.

(** ** Every transaction is counted once *)

Lemma group_size_app (m m' : PatternMap) :
  group_size (m ++ m') = group_size m + group_size m'.
Proof.
  unfold group_size; induction m as [|kv m IH]; cbn; [reflexivity|].
  fold (group_size (m ++ m')) in *; lia.
Qed.

Lemma NoDup_snoc {A : Type} (l : list A) (a : A) :
  NoDup l -> ~ In a l -> NoDup (l ++ [a]).
Proof.
  induction l as [|x l IH]; cbn; intros Hnd Hin;
    [repeat constructor; intros []|].
  inversion Hnd as [|? ? Hx Hnd']; subst; constructor.
  - rewrite in_app_iff; cbn; intuition congruence.
  - apply IH; [exact Hnd' | tauto].
Qed.

Lemma map_modify_size (key : string) (t : Transaction) (m : PatternMap) :
  NoDup (map fst m) -> map_has key m = true ->
  group_size (map_modify key (push_transaction t) m) = S (group_size m).
Proof.
  induction m as [|kv m IH]; cbn [map]; intros Hnd Hhas; [discriminate|].
  inversion Hnd as [|? ? Hkv Hnd']; subst.
  unfold map_has in Hhas; cbn [existsb] in Hhas.
  cbn [map_modify map group_size fold_right].
  fold (map_modify key (push_transaction t) m).
  fold (group_size (map_modify key (push_transaction t) m)).
  fold (group_size m).
  destruct (String.eqb_spec (fst kv) key) as [E|N].
  - rewrite map_modify_absent.
    + cbn [snd push_transaction transactions].
      rewrite length_app; cbn [length]; lia.
    + destruct (map_has key m) eqn:Hm; [|reflexivity].
      apply map_has_iff in Hm; rewrite <- E in Hm; contradiction.
  - cbn [orb] in Hhas; fold (map_has key m) in Hhas.
    rewrite (IH Hnd' Hhas); lia.
Qed.

(** What [collect] adds to the groups. *)
Lemma collect_size (m : PatternMap) (t : Transaction) :
  NoDup (map fst m) ->
  group_size (collect m t)
  = group_size m
    + (if truthy_string (normalizeMerchant (description t))
          && truthy_opt (fun _ => true) (categoryId t)
       then 1 else 0).
Proof.
  intros Hnd; unfold collect.
  destruct (truthy_string (normalizeMerchant (description t)));
    cbn [negb andb]; [|lia].
  destruct (categoryId t) as [category|]; cbn [truthy_opt]; [|lia].
  set (key := (normalizeMerchant (description t) ++ "|"
               ++ number_to_string category)%string).
  destruct (map_has key m) eqn:Hm; cbn [negb].
  - rewrite map_modify_size; [lia | exact Hnd | exact Hm].
  - rewrite map_modify_size.
    + unfold map_set; rewrite group_size_app; cbn; lia.
    + unfold map_set; rewrite map_app; cbn [map fst].
      apply NoDup_snoc; [exact Hnd|].
      intros Hk; apply map_has_iff in Hk; congruence.
    + unfold map_set; apply map_has_iff; rewrite map_app.
      apply in_or_app; right; left; reflexivity.
Qed.

Lemma collected_size (c c0 : list Transaction) (m : PatternMap) :
  grouped c0 m ->
  group_size (fold_left collect c m)
  = group_size m
    + length (filter (fun t =>
                        truthy_string (normalizeMerchant (description t))
                        && truthy_opt (fun _ => true) (categoryId t)) c).
Proof.
  revert c0 m; induction c as [|t c IH]; intros c0 m H; cbn [fold_left filter];
    [cbn; lia|].
  rewrite (IH (c0 ++ [t])%list _ (collect_grouped c0 m t H)).
  destruct H as (Hnd & _); rewrite (collect_size m t Hnd).
  destruct (truthy_string (normalizeMerchant (description t))
            && truthy_opt (fun _ => true) (categoryId t)); cbn [length]; lia.
Qed.

Lemma filter_both {A : Type} (f g : A -> bool) (l : list A) :
  filter g (filter f l) = filter (fun x => f x && g x) l.
Proof.
  induction l as [|x l IH]; [reflexivity|]; cbn [filter].
  destruct (f x); cbn [filter andb]; rewrite IH; reflexivity.
Qed.

Lemma mined_size (now : string) (c0 : list Transaction) (m : PatternMap) :
  (forall kv, In kv m -> group_ok c0 kv) ->
  total_matches
    (flat_map (fun kv => match to_pattern now (snd kv) with
                         | Some p => [p]
                         | None => []
                         end) m)
  = Z.of_nat (group_size m).
Proof.
  induction m as [|kv m IH]; intros Hok; [reflexivity|].
  cbn [flat_map group_size fold_right]; fold (group_size m).
  destruct (group_ok_pattern now c0 kv (Hok kv (or_introl eq_refl)))
    as (p & Hp & _).
  rewrite Hp; cbn [app total_matches fold_right].
  fold (total_matches
          (flat_map (fun kv => match to_pattern now (snd kv) with
                               | Some p => [p]
                               | None => []
                               end) m)).
  rewrite IH by (intros kv' Hkv'; apply Hok; right; exact Hkv').
  destruct (to_pattern_some now (snd kv) p Hp)
    as (first & others & a & rest & Ht & _ & _ & _ & Hm & _).
  rewrite Hm, Ht; lia.
Qed.

(** X27. Mining counts every transaction once: the match counts of the
    mined patterns add up to the number of transactions that are
    categorized, neither split nor pending, and whose merchant name is not
    empty after normalization. *)
Theorem mined_counts_add_up (now : string) (l : list Transaction) :
  total_matches (mine now l) = Z.of_nat (length (filter is_mined l)).
Proof.
  unfold mine.
  destruct (mined_groups l) as (_ & Hok & _).
  rewrite (mined_size now _ _ Hok); f_equal.
  rewrite (collected_size (filter is_categorized l) [] []).
  - cbn [group_size fold_right plus]; rewrite filter_both; f_equal.
    apply filter_ext; intros t; unfold is_mined.
    destruct (is_categorized t) eqn:E; cbn [andb]; [|reflexivity].
    unfold is_categorized in E.
    destruct (categoryId t); [|discriminate].
    cbn [truthy_opt]; apply andb_true_r.
  - split; [constructor|]; split; [intros kv [] | intros t c []].
Qed.
